(** * auth0-js-implicit: the session authenticator, its credential store,
      the response extractor and the expiration evaluator.

    A shallow embedding of [src/authenticator.ts], [src/storage.ts],
    [src/util.ts] and [src/test-utils/mem-storage.ts].

    JavaScript values are an inductive type.  Numbers are doubles: the
    integers, the finite numbers that are not integers (dyadic
    rationals), the two infinities and [NaN].  An operation with a side
    that is not an integer rounds its exact result to 53 bits, to the
    nearest and to even on a tie, as IEEE 754 does.  The sum, the
    difference and the product of two integers are those of [Z]: this is
    what doubles compute as long as the result is a safe integer (within
    [2^53]), and beyond that range a double rounds where [Z] does not.
    Number::toString and [Number.parseInt] are those of the language: the
    shortest numeral that reads back, in exponent form from [1e21] on,
    and the double nearest to the digits that are read.  Negative zero is
    not told apart from zero.
    The clock ([Date.now()]) is a field of the world; one synchronous turn
    of the event loop reads one value of it. *)

From Stdlib Require Import ZArith Ascii String List Lia.
From Stdlib Require Import Decimal DecimalString DecimalZ.
From stdpp Require Import base decidable option list gmap strings.

Local Open Scope Z_scope.

(* ================================================================== *)
(** ** JavaScript values *)
(* ================================================================== *)

Module Js.

(** A number is a double.  [Int z] is the integer [z]; [Frac h k] is
    [(2 * h + 1) / 2^k], a finite number that is not an integer (0.5 is
    [Frac 0 1], -0.5 is [Frac (-1) 1], 1.5 is [Frac 1 1]): a double when
    the numerator has at most 53 bits and [k <= 1074]. *)
Inductive number :=
| Int (z : Z)
| Frac (h : Z) (k : positive)
| Inf (negative : bool)
| NaN.

#[local] Set Warnings "-register-all".

Inductive JsVal :=
| JUndefined
| JNull
| JBool (b : bool)
| JNum (n : number)
| JStr (s : string)
| JObj (props : list (string * JsVal)).

(** The results of the [typeof] operator on the values above. *)
Inductive JsType := TUndefined | TObject | TBoolean | TNumber | TString.

#[global] Instance number_eq_dec : EqDecision number.
Proof. solve_decision. Defined.

#[global] Instance JsType_eq_dec : EqDecision JsType.
Proof. solve_decision. Defined.

(** [typeof v]; note [typeof null === 'object']. *)
Definition typeof (v : JsVal) : JsType :=
  match v with
  | JUndefined => TUndefined
  | JNull => TObject
  | JBool _ => TBoolean
  | JNum _ => TNumber
  | JStr _ => TString
  | JObj _ => TObject
  end.

(** ToBoolean: [undefined], [null], [false], [0], [NaN] and the empty
    string are falsy. *)
Definition truthy (v : JsVal) : bool :=
  match v with
  | JUndefined | JNull => false
  | JBool b => b
  | JNum (Int z) => negb (z =? 0)
  | JNum NaN => false
  | JNum (Frac _ _) | JNum (Inf _) => true
  | JStr s => negb (String.eqb s "")
  | JObj _ => true
  end.

(** [number | undefined], the type of [expiresAt?: number]. *)
Definition of_opt (o : option number) : JsVal :=
  match o with
  | Some n => JNum n
  | None => JUndefined
  end.

(** ToNumber on [number | undefined]. *)
Definition toNumber (o : option number) : number :=
  match o with
  | Some n => n
  | None => NaN
  end.

(** *** Doubles as dyadic rationals *)

Fixpoint trailing_zeros (p : positive) : Z :=
  match p with
  | xO p' => Z.succ (trailing_zeros p')
  | _ => 0
  end.

(** The number [m / 2^k], for any integers [m] and [k]. *)
Definition dyadic (m k : Z) : number :=
  match m with
  | Z0 => Int 0
  | Zpos p | Zneg p =>
      if k <=? 0 then Int (m * 2 ^ (- k))
      else
        let t := Z.min (trailing_zeros p) k in
        if t =? k then Int (m / 2 ^ k)
        else Frac ((m / 2 ^ t - 1) / 2) (Z.to_pos (k - t))
  end.

(** [a / 2^s] rounded to the nearest integer, ties to the even one
    ([0 <= a], [0 <= s]). *)
Definition round_half_even (a s : Z) : Z :=
  let q := a / 2 ^ s in
  match 2 * (a mod 2 ^ s) ?= 2 ^ s with
  | Lt => q
  | Gt => q + 1
  | Eq => if Z.even q then q else q + 1
  end.

(** The number of low bits of [a] that a significand of 53 bits cannot
    hold. *)
Definition excess_bits (a : Z) : Z := Z.max 0 (Z.log2 a + 1 - 53).

(** [m / 2^k] rounded to a significand of 53 bits, as every operation
    on doubles rounds its exact result.  The exponent is not bounded: a
    double has [k <= 1074], and the sums, differences and products by an
    integer that this program computes keep the [k] of their operands, so
    that no result of theirs underflows. *)
Definition round53 (m k : Z) : number :=
  let a := Z.abs m in
  let s := excess_bits a in
  dyadic (Z.sgn m * round_half_even a s) (k - s).

(** The numerator of [round53 m k] over [2^k], and the same for
    [0 <= a]. *)
Definition round_abs (a : Z) : Z :=
  round_half_even a (excess_bits a) * 2 ^ excess_bits a.

Definition rounded (m : Z) : Z := Z.sgn m * round_abs (Z.abs m).

Definition finite_add (a b : Z * Z) : number :=
  let '(m1, k1) := a in
  let '(m2, k2) := b in
  let k := Z.max k1 k2 in
  round53 (m1 * 2 ^ (k - k1) + m2 * 2 ^ (k - k2)) k.

Definition finite_mul (a b : Z * Z) : number :=
  let '(m1, k1) := a in
  let '(m2, k2) := b in
  round53 (m1 * m2) (k1 + k2).

Definition finite_lt (a b : Z * Z) : bool :=
  let '(m1, k1) := a in
  let '(m2, k2) := b in
  m1 * 2 ^ k2 <? m2 * 2 ^ k1.

(** [a + b].  On two integers the sum is the integer sum, which is the
    sum of doubles as long as it is a safe integer; as soon as one side
    is not an integer the exact sum is rounded.  The same holds of [a - b]
    and [a * b]. *)
Definition num_add (a b : number) : number :=
  match a with
  | NaN => NaN
  | Inf s =>
      match b with
      | NaN => NaN
      | Inf s' => if Bool.eqb s s' then Inf s else NaN
      | _ => Inf s
      end
  | Int x =>
      match b with
      | NaN => NaN
      | Inf s' => Inf s'
      | Int y => Int (x + y)
      | Frac h k => finite_add (x, 0) (2 * h + 1, Z.pos k)
      end
  | Frac h k =>
      match b with
      | NaN => NaN
      | Inf s' => Inf s'
      | Int y => finite_add (2 * h + 1, Z.pos k) (y, 0)
      | Frac h' k' => finite_add (2 * h + 1, Z.pos k) (2 * h' + 1, Z.pos k')
      end
  end.

Definition num_sub (a b : number) : number :=
  match a with
  | NaN => NaN
  | Inf s =>
      match b with
      | NaN => NaN
      | Inf s' => if Bool.eqb s s' then NaN else Inf s
      | _ => Inf s
      end
  | Int x =>
      match b with
      | NaN => NaN
      | Inf s' => Inf (negb s')
      | Int y => Int (x - y)
      | Frac h k => finite_add (x, 0) (- (2 * h + 1), Z.pos k)
      end
  | Frac h k =>
      match b with
      | NaN => NaN
      | Inf s' => Inf (negb s')
      | Int y => finite_add (2 * h + 1, Z.pos k) (- y, 0)
      | Frac h' k' => finite_add (2 * h + 1, Z.pos k) (- (2 * h' + 1), Z.pos k')
      end
  end.

(** The sign of a number that is not [NaN]: [Lt], [Eq] (zero) or [Gt]. *)
Definition sign (a : number) : comparison :=
  match a with
  | Int z => z ?= 0
  | Frac h _ => 2 * h + 1 ?= 0
  | Inf s => if s then Lt else Gt
  | NaN => Eq
  end.

Definition num_mul (a b : number) : number :=
  match a with
  | NaN => NaN
  | Inf s =>
      match b with
      | NaN => NaN
      | _ => match sign b with
             | Eq => NaN
             | Lt => Inf (negb s)
             | Gt => Inf s
             end
      end
  | Int x =>
      match b with
      | NaN => NaN
      | Inf s' => match x ?= 0 with
                  | Eq => NaN
                  | Lt => Inf (negb s')
                  | Gt => Inf s'
                  end
      | Int y => Int (x * y)
      | Frac h k => finite_mul (x, 0) (2 * h + 1, Z.pos k)
      end
  | Frac h k =>
      match b with
      | NaN => NaN
      | Inf s' => if 2 * h + 1 <? 0 then Inf (negb s') else Inf s'
      | Int y => finite_mul (2 * h + 1, Z.pos k) (y, 0)
      | Frac h' k' => finite_mul (2 * h + 1, Z.pos k) (2 * h' + 1, Z.pos k')
      end
  end.

(** [a < b] and [a > b]: false as soon as one side is [NaN]. *)
Definition num_lt (a b : number) : bool :=
  match a with
  | NaN => false
  | Inf s =>
      match b with
      | NaN => false
      | Inf s' => s && negb s'
      | _ => s
      end
  | Int x =>
      match b with
      | NaN => false
      | Inf s' => negb s'
      | Int y => x <? y
      | Frac h k => finite_lt (x, 0) (2 * h + 1, Z.pos k)
      end
  | Frac h k =>
      match b with
      | NaN => false
      | Inf s' => negb s'
      | Int y => finite_lt (2 * h + 1, Z.pos k) (y, 0)
      | Frac h' k' => finite_lt (2 * h + 1, Z.pos k) (2 * h' + 1, Z.pos k')
      end
  end.

Definition num_gt (a b : number) : bool := num_lt b a.

Definition isNaN (a : number) : bool :=
  match a with
  | NaN => true
  | _ => false
  end.

(** [Number.isInteger] on [number | undefined]. *)
Definition isInteger (o : option number) : bool :=
  match o with
  | Some (Int _) => true
  | _ => false
  end.

(** The double nearest to an integer; [Infinity] from [2^1024 - 2^970]
    on. *)
Definition round_int (z : Z) : number :=
  if Z.log2 (Z.abs z) <? 53 then Int z
  else
    match round53 z 0 with
    | Int r => if 2 ^ 1024 <=? Z.abs r then Inf (r <? 0) else Int r
    | n => n
    end.

(** *** Number::toString *)

(** The decimal numeral of an integer, with a leading minus sign for a
    negative one. *)
Definition string_of_Z (z : Z) : string :=
  NilZero.string_of_int (Z.to_int z).

Fixpoint zeros (n : nat) : string :=
  match n with
  | O => ""
  | S n' => String "0" (zeros n')
  end.

(** The double [mant * 2^e] to print, with the interval of the reals
    that round to it, in units of [2^(e - 2)]: the value is [4 * mant],
    the interval ends at [lo] and [hi], which belong to it when [mant] is
    even. *)
Record Printed := mkPrinted {
  p_unit : Z;       (* [e - 2] *)
  p_value : Z;
  p_lo : Z;
  p_hi : Z;
  p_closed : bool
}.

(** [m * 2^x] with [0 < m] of at most 53 bits, as a double: the
    significand is scaled to 53 bits, unless the exponent would fall
    below [-1074]. *)
Definition printed (m x : Z) : Printed :=
  let d := Z.log2 m + 1 in
  let e := Z.max (x - (53 - d)) (Z.min (-1074) x) in
  let mant := if e <=? x then m * 2 ^ (x - e) else m / 2 ^ (e - x) in
  let v := 4 * mant in
  mkPrinted (e - 2) v
            (if (mant =? 2 ^ 52) && (-1074 <? e) then v - 1 else v - 2)
            (v + 2) (Z.even mant).

(** Comparing [c * 10^t] with [x * 2^u]: both sides as integers. *)
Definition decimal_side (t u : Z) : Z := 10 ^ Z.max t 0 * 2 ^ Z.max (- u) 0.
Definition binary_side (t u : Z) : Z := 2 ^ Z.max u 0 * 10 ^ Z.max (- t) 0.

Definition reads_back (p : Printed) (c t : Z) : bool :=
  let c' := c * decimal_side t (p_unit p) in
  let l := p_lo p * binary_side t (p_unit p) in
  let h := p_hi p * binary_side t (p_unit p) in
  if p_closed p then (l <=? c') && (c' <=? h) else (l <? c') && (c' <? h).

(** The least [n] with [value < 10^n], searched upwards from [n]. *)
Fixpoint magnitude (fuel : nat) (p : Printed) (n : Z) : Z :=
  match fuel with
  | O => n
  | S fuel' =>
      if p_value p * binary_side n (p_unit p) <? decimal_side n (p_unit p)
      then n
      else magnitude fuel' p (n + 1)
  end.

(** The shortest decimal [s * 10^(n - digits)] that reads back as the
    double, and among those of that length the nearest one, the even one
    on a tie: tried with [digits], then with one digit more. *)
Fixpoint shortest (fuel : nat) (p : Printed) (n digits : Z) : Z * Z :=
  let t := n - digits in
  let P := decimal_side t (p_unit p) in
  let Q := binary_side t (p_unit p) in
  let s := p_value p * Q / P in
  let below := reads_back p s t in
  let above := reads_back p (s + 1) t in
  let nearer :=
    match p_value p * Q - s * P ?= (s + 1) * P - p_value p * Q with
    | Lt => s
    | Gt => s + 1
    | Eq => if Z.even s then s else s + 1
    end in
  match fuel with
  | O => (s, t)
  | S fuel' =>
      if below && above then (nearer, t)
      else if below then (s, t)
      else if above then (s + 1, t)
      else shortest fuel' p n (digits + 1)
  end.

(** The digits of [s] without the zeros at its end. *)
Fixpoint strip_zeros (fuel : nat) (s t : Z) : Z * Z :=
  match fuel with
  | O => (s, t)
  | S fuel' =>
      if (s mod 10 =? 0) && negb (s =? 0) then strip_zeros fuel' (s / 10) (t + 1)
      else (s, t)
  end.

(** The layout of Number::toString for the digits [ds] of a value
    [0.ds * 10^n]. *)
Definition layout (ds : string) (n : Z) : string :=
  let k := Z.of_nat (String.length ds) in
  if (k <=? n) && (n <=? 21) then ds +:+ zeros (Z.to_nat (n - k))
  else if (0 <? n) && (n <=? 21) then
    substring 0 (Z.to_nat n) ds +:+ "." +:+ substring (Z.to_nat n) (Z.to_nat (k - n)) ds
  else if (-6 <? n) && (n <=? 0) then "0." +:+ zeros (Z.to_nat (- n)) +:+ ds
  else
    let e := n - 1 in
    (if k =? 1 then ds
     else substring 0 1 ds +:+ "." +:+ substring 1 (Z.to_nat (k - 1)) ds)
    +:+ "e" +:+ (if e <? 0 then "-" else "+") +:+ string_of_Z (Z.abs e).

(** The numeral of the positive double [m * 2^x]. *)
Definition string_of_double (m x : Z) : string :=
  let p := printed m x in
  let estimate := (Z.log2 m + x) * 30103 / 100000 in
  let n := magnitude 4 p (estimate - 1) in
  let '(s, t) := shortest 17 p n 1 in
  let '(s, t) := strip_zeros 400 s t in
  let ds := string_of_Z s in
  layout ds (t + Z.of_nat (String.length ds)).

Definition string_of_number (n : number) : string :=
  match n with
  | NaN => "NaN"
  | Inf s => if s then "-Infinity" else "Infinity"
  | Frac h k =>
      let m := 2 * h + 1 in
      (if m <? 0 then "-" else "") +:+ string_of_double (Z.abs m) (- Z.pos k)
  | Int z =>
      if Z.log2 (Z.abs z) <? 53 then string_of_Z z
      else
        match round_int z with
        | Int r => (if r <? 0 then "-" else "") +:+ string_of_double (Z.abs r) 0
        | Inf s => if s then "-Infinity" else "Infinity"
        | _ => "NaN"
        end
  end.

(** ToString, as applied by template literals and by Web Storage. *)
Definition toString (v : JsVal) : string :=
  match v with
  | JUndefined => "undefined"
  | JNull => "null"
  | JBool true => "true"
  | JBool false => "false"
  | JNum n => string_of_number n
  | JStr s => s
  | JObj _ => "[object Object]"
  end.

(** Own-property lookup in an object literal; a missing key reads as
    [undefined]. *)
Fixpoint get_prop (props : list (string * JsVal)) (key : string) : JsVal :=
  match props with
  | [] => JUndefined
  | (k, v) :: rest => if String.eqb k key then v else get_prop rest key
  end.

(** [v.key] for the keys this program reads ([idTokenPayload],
    [accessToken], [expiresIn], [sub]): [None] stands for the TypeError
    raised on [undefined] and [null]; primitives have no such property. *)
Definition get (v : JsVal) (key : string) : option JsVal :=
  match v with
  | JUndefined | JNull => None
  | JObj props => Some (get_prop props key)
  | JBool _ | JNum _ | JStr _ => Some JUndefined
  end.

(** *** [Number.parseInt(string)] with no radix *)

Definition is_space (c : ascii) : bool :=
  let n := nat_of_ascii c in
  ((n =? 32) || (n =? 9) || (n =? 10) || (n =? 11) || (n =? 12) || (n =? 13))%nat.

Fixpoint trim_start (s : string) : string :=
  match s with
  | String c rest => if is_space c then trim_start rest else s
  | EmptyString => s
  end.

Definition dec_digit (c : ascii) : option Z :=
  let n := nat_of_ascii c in
  if ((48 <=? n) && (n <=? 57))%nat then Some (Z.of_nat n - 48) else None.

Definition hex_digit (c : ascii) : option Z :=
  let n := nat_of_ascii c in
  if ((48 <=? n) && (n <=? 57))%nat then Some (Z.of_nat n - 48)
  else if ((97 <=? n) && (n <=? 102))%nat then Some (Z.of_nat n - 87)
  else if ((65 <=? n) && (n <=? 70))%nat then Some (Z.of_nat n - 55)
  else None.

(** The value of the longest prefix of digits; [None] when it is empty. *)
Fixpoint digits (digit : ascii -> option Z) (radix : Z)
         (s : string) (acc : option Z) : option Z :=
  match s with
  | String c rest =>
      match digit c with
      | Some d =>
          digits digit radix rest
                 (Some (match acc with Some a => a * radix + d | None => d end))
      | None => acc
      end
  | EmptyString => acc
  end.

Definition parse_unsigned (s : string) : option Z :=
  match s with
  | String "0" (String "x" rest) | String "0" (String "X" rest) =>
      digits hex_digit 16 rest None
  | _ => digits dec_digit 10 s None
  end.

Definition parseInt_string (s : string) : number :=
  let s := trim_start s in
  let '(neg, s) :=
    match s with
    | String "-" rest => (true, rest)
    | String "+" rest => (false, rest)
    | _ => (false, s)
    end in
  match parse_unsigned s with
  | Some z => round_int (if neg then - z else z)
  | None => NaN
  end.

(** [Number.parseInt(val)]: the argument is converted to a string
    first. *)
Definition parseInt (v : JsVal) : number := parseInt_string (toString v).

(** The value of a decimal numeral read from its most significant digit,
    as [digits] accumulates it. *)
Fixpoint uint_value (u : uint) (acc : Z) : Z :=
  match u with
  | Nil => acc
  | D0 l => uint_value l (acc * 10 + 0)
  | D1 l => uint_value l (acc * 10 + 1)
  | D2 l => uint_value l (acc * 10 + 2)
  | D3 l => uint_value l (acc * 10 + 3)
  | D4 l => uint_value l (acc * 10 + 4)
  | D5 l => uint_value l (acc * 10 + 5)
  | D6 l => uint_value l (acc * 10 + 6)
  | D7 l => uint_value l (acc * 10 + 7)
  | D8 l => uint_value l (acc * 10 + 8)
  | D9 l => uint_value l (acc * 10 + 9)
  end.

(** [Number.MAX_SAFE_INTEGER] *)
Definition MAX_SAFE_INTEGER : Z := 2 ^ 53 - 1.

Definition isSafeInteger (z : Z) : Prop := Z.abs z <= MAX_SAFE_INTEGER.

End Js.

Import Js.

(* ================================================================== *)
(** ** The response extractor and the expiration evaluator
       ([src/authenticator.ts], the two exported functions) *)
(* ================================================================== *)

(** What a [throw] carries, and what a provider callback reports. *)
Inductive Exn :=
| Error (message : string)      (* [new Error(message)] *)
| TypeError                     (* raised by the engine on [undefined.x] *)
| ProviderError (e : JsVal).    (* the [error] argument of a callback *)

Inductive Result (A : Type) :=
| Ok (a : A)
| Throw (e : Exn).
Arguments Ok {A} a.
Arguments Throw {A} e.

(** The record returned by [extractAuthData]. *)
Record AuthData := mkAuthData {
  ad_userId : JsVal;
  ad_accessToken : string;
  ad_expiresAt : number
}.

(** [AuthResponse], destructured:
    [let { idTokenPayload, accessToken, expiresIn } = parsed]. *)
Definition destructure (parsed : JsVal) : option (JsVal * JsVal * JsVal) :=
  match get parsed "idTokenPayload", get parsed "accessToken", get parsed "expiresIn" with
  | Some p, Some a, Some e => Some (p, a, e)
  | _, _, _ => None
  end.

(** [expiresIn > -1] on an arbitrary value that has passed
    [typeof expiresIn === 'number']. *)
Definition gt_minus_one (v : JsVal) : bool :=
  match v with
  | JNum n => num_gt n (Int (-1))
  | _ => false
  end.

Definition extractAuthData (now : Z) (parsed : JsVal) : Result AuthData :=
  match destructure parsed with
  | None => Throw TypeError
  | Some (idTokenPayload, accessToken, expiresIn) =>
      if negb (bool_decide (typeof idTokenPayload = TObject)) then
        Throw (Error ("expected idTokenPayload to be an object, got "
                        +:+ toString idTokenPayload))
      else if negb (bool_decide (typeof accessToken = TString)) then
        Throw (Error ("expected accessToken to be a string, got "
                        +:+ toString accessToken))
      else if negb (truthy expiresIn)
              || negb (bool_decide (typeof expiresIn = TNumber))
              || negb (gt_minus_one expiresIn) then
        Throw (Error ("expected expiresIn to be a positive integer, got "
                        +:+ toString expiresIn))
      else
        match get idTokenPayload "sub" with
        | None => Throw TypeError
        | Some sub =>
            if negb (truthy sub) then
              Throw (Error "idTokenPayload.sub not found in parsed hash")
            else
              match accessToken, expiresIn with
              | JStr token, JNum seconds =>
                  let expiresAt := num_add (Int now) (num_mul seconds (Int 1000)) in
                  Ok (mkAuthData sub token expiresAt)
              | _, _ => Throw TypeError (* excluded by the two typeof tests *)
              end
        end
  end.

(** [extractExpirationData(expiresAt?: number, leeway?: number)]; the
    result [[false]] is [(false, None)]. *)
Definition extractExpirationData (now : Z) (expiresAt leeway : option number)
  : bool * option bool :=
  if negb (truthy (of_opt expiresAt)) then (false, None)
  else
    let expiresWithin := num_sub (toNumber expiresAt) (Int now) in
    if isNaN expiresWithin || num_lt expiresWithin (Int 0) then (false, None)
    else
      let isExpiringSoon :=
        if truthy (of_opt leeway) && isInteger leeway
        then num_lt expiresWithin (toNumber leeway)
        else true in
      (true, Some isExpiringSoon).

Definition mkResponse (accessToken idTokenPayload expiresIn : JsVal) : JsVal :=
  JObj [("accessToken", accessToken); ("idTokenPayload", idTokenPayload);
        ("expiresIn", expiresIn)].

(* ================================================================== *)
(** ** The credential store ([src/storage.ts]) *)
(* ================================================================== *)

(** The [Storage] interface: [getItem], [setItem], [removeItem]. *)
Class Storage (S : Type) := {
  getItem : string -> S -> JsVal;
  setItem : string -> JsVal -> S -> S;
  removeItem : string -> S -> S
}.

(** [MemStorage] of [src/test-utils/mem-storage.ts]: a plain object used
    as a map, which keeps every value as it is given and reads a missing
    key as [undefined].  This is the object on the keys that are not in
    [objectPrototypeKeys]. *)
#[global] Instance MemStorage : Storage (gmap string JsVal) := {|
  getItem key store := default JUndefined (store !! key);
  setItem key val store := <[key := val]> store;
  removeItem key store := delete key store
|}.

(** The names that a plain object inherits from [Object.prototype].  On
    these the object is not a map: a key that was never written reads as
    the inherited property, and a write to [__proto__] creates no key. *)
Definition objectPrototypeKeys : list string :=
  ["__proto__"; "constructor"; "hasOwnProperty"; "isPrototypeOf";
   "propertyIsEnumerable"; "toLocaleString"; "toString"; "valueOf";
   "__defineGetter__"; "__defineSetter__"; "__lookupGetter__";
   "__lookupSetter__"].

(** [localStorage], the default medium: Web Storage keeps strings only
    ([setItem] converts its argument) and reads a missing key as [null]. *)
#[global] Instance LocalStorage : Storage (gmap string string) := {|
  getItem key store :=
    match store !! key with
    | Some s => JStr s
    | None => JNull
    end;
  setItem key val store := <[key := toString val]> store;
  removeItem key store := delete key store
|}.

Record Keys := mkKeys {
  LOGIN_LOCATION : string;
  USER_ID : string;
  ACCESS_TOKEN : string;
  EXPIRES_AT : string;
  NONCE : string;
  STATE : string
}.

Definition defaultKeys : Keys := {|
  LOGIN_LOCATION := "login_location";
  USER_ID := "user_id";
  ACCESS_TOKEN := "access_token";
  EXPIRES_AT := "expires_at";
  NONCE := "auth_nonce";
  STATE := "auth_state"
|}.

Definition stringOrUndefined (val : JsVal) : JsVal :=
  if truthy val then val else JUndefined.

(** [val ? Number.parseInt(val) : undefined] *)
Definition parseIntOrUndefined (val : JsVal) : option number :=
  if truthy val then Some (parseInt val) else None.

(** The object built by [makeAuthStorage({ storage, keys })]. *)
Module AuthStorage.
Section WithStorage.
Context {S : Type} `{Storage S}.
Variable keys : Keys.

Definition retrieveLoginLocation (st : S) : JsVal :=
  stringOrUndefined (getItem (LOGIN_LOCATION keys) st).
Definition storeLoginLocation (loginLocation : JsVal) (st : S) : S :=
  setItem (LOGIN_LOCATION keys) loginLocation st.
Definition removeLoginLocation (st : S) : S :=
  removeItem (LOGIN_LOCATION keys) st.

Definition retrieveUserId (st : S) : JsVal :=
  stringOrUndefined (getItem (USER_ID keys) st).
Definition storeUserId (userId : JsVal) (st : S) : S :=
  setItem (USER_ID keys) userId st.
Definition removeUserId (st : S) : S :=
  removeItem (USER_ID keys) st.

Definition retrieveAccessToken (st : S) : JsVal :=
  stringOrUndefined (getItem (ACCESS_TOKEN keys) st).
Definition storeAccessToken (token : JsVal) (st : S) : S :=
  setItem (ACCESS_TOKEN keys) token st.
Definition removeAccessToken (st : S) : S :=
  removeItem (ACCESS_TOKEN keys) st.

Definition retrieveNonce (st : S) : option number :=
  parseIntOrUndefined (getItem (NONCE keys) st).
Definition retrieveExpiresAt (st : S) : option number :=
  parseIntOrUndefined (getItem (EXPIRES_AT keys) st).
Definition storeExpiresAt (expiresAt : number) (st : S) : S :=
  setItem (EXPIRES_AT keys) (JNum expiresAt) st.
Definition removeExpiresAt (st : S) : S :=
  removeItem (EXPIRES_AT keys) st.
Definition storeNonce (nonce : number) (st : S) : S :=
  setItem (NONCE keys) (JNum nonce) st.
Definition removeNonce (st : S) : S :=
  removeItem (NONCE keys) st.

Definition retrieveState (st : S) : JsVal :=
  stringOrUndefined (getItem (STATE keys) st).
Definition storeState (state : JsVal) (st : S) : S :=
  setItem (STATE keys) state st.
Definition removeState (st : S) : S :=
  removeItem (STATE keys) st.

End WithStorage.
End AuthStorage.

(** What the authenticator relies on in a medium, whichever it is: a
    removed key reads as nothing, other keys are left alone, and a stored
    value reads back with the same string form. *)
Class LawfulStorage (S : Type) `{Storage S} : Prop := {
  getItem_removeItem_eq key st :
    truthy (getItem key (removeItem key st)) = false;
  getItem_removeItem_ne key key' st :
    key <> key' -> getItem key' (removeItem key st) = getItem key' st;
  getItem_setItem_ne key key' v st :
    key <> key' -> getItem key' (setItem key v st) = getItem key' st;
  getItem_setItem_str key s st :
    getItem key (setItem key (JStr s) st) = JStr s;
  getItem_setItem_toString key v st :
    toString (getItem key (setItem key v st)) = toString v
}.

(** The keys of a store are pairwise distinct, as [defaultKeys] are. *)
Definition KeysDistinct (keys : Keys) : Prop :=
  NoDup [LOGIN_LOCATION keys; USER_ID keys; ACCESS_TOKEN keys;
         EXPIRES_AT keys; NONCE keys; STATE keys].

(* ================================================================== *)
(** ** The session authenticator ([src/authenticator.ts], the class) *)
(* ================================================================== *)

(** [AuthResult]: every field is optional; [undefined] stands for a field
    that is absent.  [{}] is [emptyResult]. *)
Record AuthResult := mkAuthResult {
  userId : JsVal;
  accessToken : JsVal;
  expiresAt : JsVal;
  redirectTo : JsVal
}.

Definition emptyResult : AuthResult :=
  mkAuthResult JUndefined JUndefined JUndefined JUndefined.

(** The state of a promise; it is settled at most once. *)
Inductive Promise :=
| Pending
| Resolved (r : AuthResult)
| Rejected (e : Exn).

(** The calls the authenticator makes on its collaborators: the provider
    client, the timer facility of [window] and the host's two handlers. *)
Inductive Event :=
| Authorize (opts : list (string * JsVal))
| ParseHash
| CheckSession (opts : list (string * JsVal))
| ClientLogout (returnTo : string)
| ClearTimeout (id : option nat)
| SetTimeout (id : nat) (delay : number)
| OnReauthenticationSuccess (r : AuthResult)
| OnReauthenticationFailure (e : Exn).

(** [Options], without the storage and its keys (which are parameters of
    the model).  A handler is a host function; the model records whether
    one was given and each call made to it. *)
Record Options := mkOptions {
  reauthenticationLeeway : option number;
  onReauthenticationSuccess : bool;
  onReauthenticationFailure : bool
}.

Definition DEFAULT_LEEWAY : number := Int 1200.

Definition responseType : string := "token id_token".

(** The authenticator instance together with the part of the page it
    acts on. *)
Record World (S : Type) := mkWorld {
  storage : S;                       (* the medium behind [authStorage] *)
  clock : Z;                         (* [Date.now()] *)
  reauthTimeoutId : option nat;      (* [this.reauthTimeoutId] *)
  timers : list (nat * number);      (* pending timeouts: handle, delay;
                                        each one calls [authenticate()] *)
  nextTimer : nat;                   (* the next handle [setTimeout] returns *)
  promises : list Promise;           (* the promises handed to callers *)
  awaiting : list nat;               (* [checkSession] calls not yet
                                        answered, by outer promise *)
  events : list Event                (* oldest first *)
}.
Arguments mkWorld {S}.
Arguments storage {S}.
Arguments clock {S}.
Arguments reauthTimeoutId {S}.
Arguments timers {S}.
Arguments nextTimer {S}.
Arguments promises {S}.
Arguments awaiting {S}.
Arguments events {S}.

(** State passing over the world. *)
Definition M (S A : Type) : Type := World S -> A * World S.

Definition ret {S A} (a : A) : M S A := fun w => (a, w).
Definition bind {S A B} (m : M S A) (k : A -> M S B) : M S B :=
  fun w => let '(a, w') := m w in k a w'.

Declare Scope auth_scope.
Delimit Scope auth_scope with auth.
Notation "x <- m ;; k" := (bind m (fun x => k))
  (at level 100, m at next level, right associativity) : auth_scope.
Notation "m ;;; k" := (bind m (fun _ => k))
  (at level 100, right associativity) : auth_scope.

Definition when {S} (b : bool) (m : M S unit) : M S unit :=
  if b then m else ret tt.

Section Authenticator.
Context {S : Type} `{Storage S}.
Variable keys : Keys.
Variable options : Options.
Variable logoutRedirectUrl : string.

Local Open Scope auth_scope.

(** *** Primitive effects *)

Definition onStorage (f : S -> S) : M S unit := fun w =>
  (tt, mkWorld (f (storage w)) (clock w) (reauthTimeoutId w) (timers w)
               (nextTimer w) (promises w) (awaiting w) (events w)).

Definition readStorage {A} (f : S -> A) : M S A := fun w => (f (storage w), w).

Definition Date_now : M S Z := fun w => (clock w, w).

Definition emit (e : Event) : M S unit := fun w =>
  (tt, mkWorld (storage w) (clock w) (reauthTimeoutId w) (timers w)
               (nextTimer w) (promises w) (awaiting w) (events w ++ [e])).

(** [new Promise(...)]: the handle is the position in [promises]. *)
Definition newPromise : M S nat := fun w =>
  (length (promises w),
   mkWorld (storage w) (clock w) (reauthTimeoutId w) (timers w)
           (nextTimer w) (promises w ++ [Pending]) (awaiting w) (events w)).

(** [resolve] and [reject] have no effect on a settled promise. *)
Definition settle (outcome : Promise) (p : Promise) : Promise :=
  match p with
  | Pending => outcome
  | _ => p
  end.

Definition settlePromise (pid : nat) (outcome : Promise) : M S unit := fun w =>
  (tt, mkWorld (storage w) (clock w) (reauthTimeoutId w) (timers w)
               (nextTimer w) (alter (settle outcome) pid (promises w))
               (awaiting w) (events w)).

Definition resolve (pid : nat) (r : AuthResult) : M S unit :=
  settlePromise pid (Resolved r).
Definition reject (pid : nat) (e : Exn) : M S unit :=
  settlePromise pid (Rejected e).

(** [window.clearTimeout(id)]: drops the pending timeout with that
    handle, if any. *)
Definition clearTimeout (id : option nat) : M S unit := fun w =>
  (tt, mkWorld (storage w) (clock w) (reauthTimeoutId w)
               (filter (fun t => Some (fst t) <> id) (timers w))
               (nextTimer w) (promises w) (awaiting w)
               (events w ++ [ClearTimeout id])).

(** [window.setTimeout(this.authenticate.bind(this), delay)] *)
Definition setTimeout (delay : number) : M S nat := fun w =>
  (nextTimer w,
   mkWorld (storage w) (clock w) (reauthTimeoutId w)
           (timers w ++ [(nextTimer w, delay)])
           (Datatypes.S (nextTimer w)) (promises w) (awaiting w)
           (events w ++ [SetTimeout (nextTimer w) delay])).

Definition set_reauthTimeoutId (id : nat) : M S unit := fun w =>
  (tt, mkWorld (storage w) (clock w) (Some id) (timers w)
               (nextTimer w) (promises w) (awaiting w) (events w)).

Definition expectReply (pid : nat) : M S unit := fun w =>
  (tt, mkWorld (storage w) (clock w) (reauthTimeoutId w) (timers w)
               (nextTimer w) (promises w) (pid :: awaiting w) (events w)).

(** *** Private methods *)

Definition getReauthenticationLeeway : number :=
  let seconds :=
    if truthy (of_opt (reauthenticationLeeway options))
    then toNumber (reauthenticationLeeway options)
    else DEFAULT_LEEWAY in
  num_mul seconds (Int 1000).

Definition setReauthenticationTimeout (expiresAt : option number) : M S unit :=
  old <- (fun w => (reauthTimeoutId w, w)) ;;
  clearTimeout old ;;;
  now <- Date_now ;;
  let timeout :=
    num_sub (num_sub (toNumber expiresAt) getReauthenticationLeeway) (Int now) in
  id <- setTimeout timeout ;;
  set_reauthTimeoutId id.

Definition handleReauthenticationSuccess (r : AuthResult) : M S unit :=
  when (onReauthenticationSuccess options) (emit (OnReauthenticationSuccess r)).

Definition handleReauthenticationFailure (e : Exn) : M S unit :=
  when (onReauthenticationFailure options) (emit (OnReauthenticationFailure e)).

(** *** Public methods *)

Definition promptLogin (currentLocation : JsVal) (opts : list (string * JsVal))
  : M S unit :=
  onStorage (AuthStorage.storeLoginLocation keys currentLocation) ;;;
  emit (Authorize (("responseType", JStr responseType) :: opts)).

(** [handleLoginSuccess()], with the arguments [(error, parsed)] that
    [client.parseHash] passes to its callback. *)
Definition handleLoginSuccess (error parsed : JsVal) : M S nat :=
  pid <- newPromise ;;
  emit ParseHash ;;;
  (if truthy parsed then
     now <- Date_now ;;
     match extractAuthData now parsed with
     | Ok d =>
         redirectTo <- readStorage (AuthStorage.retrieveLoginLocation keys) ;;
         onStorage (AuthStorage.removeLoginLocation keys) ;;;
         onStorage (AuthStorage.storeUserId keys (ad_userId d)) ;;;
         onStorage (AuthStorage.storeAccessToken keys (JStr (ad_accessToken d))) ;;;
         onStorage (AuthStorage.storeExpiresAt keys (ad_expiresAt d)) ;;;
         setReauthenticationTimeout (Some (ad_expiresAt d)) ;;;
         resolve pid (mkAuthResult (ad_userId d) (JStr (ad_accessToken d))
                                   (JNum (ad_expiresAt d)) redirectTo)
     | Throw e => reject pid e
     end
   else if truthy error then reject pid (ProviderError error)
   else reject pid
          (Error "parseHash neither parsed the hash successfully nor returned an error")) ;;;
  ret pid.

Definition authorizeOptions (state : string) : list (string * JsVal) :=
  [("responseType", JStr responseType); ("state", JStr state)].

(** [authenticate(currentLocation?)] up to the point where the executor
    returns; [state] is the value drawn by [randomString()].  In the
    renewal branch the executor returns after calling
    [client.checkSession], whose answer is handled by
    [checkSessionReply]. *)
Definition authenticate (currentLocation : JsVal) (state : string) : M S nat :=
  pid <- newPromise ;;
  accessToken <- readStorage (AuthStorage.retrieveAccessToken keys) ;;
  when (negb (truthy accessToken))
    (when (truthy currentLocation)
       (onStorage (AuthStorage.storeLoginLocation keys currentLocation) ;;;
        emit (Authorize (authorizeOptions state))) ;;;
     resolve pid emptyResult) ;;;
  expiresAt <- readStorage (AuthStorage.retrieveExpiresAt keys) ;;
  now <- Date_now ;;
  let '(isFresh, isExpiringSoon) :=
    extractExpirationData now expiresAt (Some getReauthenticationLeeway) in
  when (negb isFresh && truthy currentLocation)
    (onStorage (AuthStorage.storeLoginLocation keys currentLocation) ;;;
     onStorage (AuthStorage.removeAccessToken keys) ;;;
     onStorage (AuthStorage.removeExpiresAt keys) ;;;
     emit (Authorize (authorizeOptions state)) ;;;
     resolve pid emptyResult) ;;;
  if isFresh && default false isExpiringSoon then
    emit (CheckSession [("responseType", JStr responseType)]) ;;;
    expectReply pid ;;;
    ret pid
  else
    setReauthenticationTimeout expiresAt ;;;
    userId <- readStorage (AuthStorage.retrieveUserId keys) ;;
    resolve pid (mkAuthResult userId accessToken (of_opt expiresAt) JUndefined) ;;;
    ret pid.

(** The callback given to [client.checkSession] in [reauthenticate()],
    called with [(error, result)]; it settles the inner promise. *)
Definition reauthenticateCallback (error result : JsVal)
  : M S (option (Result AuthData)) :=
  let inner : option (Result AuthData) :=
    if truthy error then Some (Throw (ProviderError error)) else None in
  now <- Date_now ;;
  match extractAuthData now result with
  | Ok d =>
      ret (match inner with None => Some (Ok d) | Some _ => inner end)
  | Throw e =>
      handleReauthenticationFailure e ;;;
      ret inner
  end.

(** The [.then(...)] and [.catch(...)] handlers that [authenticate]
    attaches to the promise of [reauthenticate()]; [None] is a promise
    that stays pending, so neither handler runs. *)
Definition reauthenticateHandlers (pid : nat) (inner : option (Result AuthData))
  : M S unit :=
  match inner with
  | Some (Ok d) =>
      when (truthy (JStr (ad_accessToken d)) && truthy (JNum (ad_expiresAt d)))
        (onStorage (AuthStorage.storeAccessToken keys (JStr (ad_accessToken d))) ;;;
         onStorage (AuthStorage.storeExpiresAt keys (ad_expiresAt d)) ;;;
         setReauthenticationTimeout (Some (ad_expiresAt d)) ;;;
         handleReauthenticationSuccess
           (mkAuthResult (ad_userId d) (JStr (ad_accessToken d))
                         (JNum (ad_expiresAt d)) JUndefined) ;;;
         resolve pid (mkAuthResult JUndefined (JStr (ad_accessToken d))
                                   (JNum (ad_expiresAt d)) JUndefined))
  | Some (Throw error) =>
      onStorage (AuthStorage.removeUserId keys) ;;;
      onStorage (AuthStorage.removeAccessToken keys) ;;;
      onStorage (AuthStorage.removeExpiresAt keys) ;;;
      handleReauthenticationFailure error ;;;
      resolve pid emptyResult
  | None => ret tt
  end.

(** The turn in which the provider answers a [checkSession] call made on
    behalf of the promise [pid]. *)
Definition checkSessionReply (pid : nat) (error result : JsVal) : M S unit :=
  inner <- reauthenticateCallback error result ;;
  reauthenticateHandlers pid inner.

Definition logout : M S unit :=
  onStorage (AuthStorage.removeUserId keys) ;;;
  onStorage (AuthStorage.removeAccessToken keys) ;;;
  onStorage (AuthStorage.removeExpiresAt keys) ;;;
  emit (ClientLogout logoutRedirectUrl).

End Authenticator.

(* ================================================================== *)
(** ** The page as a transition system *)
(* ================================================================== *)

(** One turn of the event loop: a call of a public method by the host, the
    answer of the provider to a pending [checkSession], a timeout that
    fires, or time passing. *)
Inductive Op :=
| OpPromptLogin (currentLocation : JsVal) (opts : list (string * JsVal))
| OpHandleLoginSuccess (error parsed : JsVal)
| OpAuthenticate (currentLocation : JsVal) (state : string)
| OpCheckSessionReply (pid : nat) (error result : JsVal)
| OpLogout
| OpTimeout (id : nat) (state : string)
| OpTick (dt : Z).

Section Machine.
Context {S : Type} `{Storage S}.
Variable keys : Keys.
Variable options : Options.
Variable logoutRedirectUrl : string.

(** The world right after [new Authenticator(client, url, options)]. *)
Definition initWorld (st : S) (now : Z) : World S :=
  mkWorld st now None [] 1%nat [] [] [].

Fixpoint remove_first (pid : nat) (l : list nat) : list nat :=
  match l with
  | [] => []
  | x :: rest => if Nat.eqb x pid then rest else x :: remove_first pid rest
  end.

Definition answered (pid : nat) (w : World S) : World S :=
  mkWorld (storage w) (clock w) (reauthTimeoutId w) (timers w) (nextTimer w)
          (promises w) (remove_first pid (awaiting w)) (events w).

(** A timeout that fires is no longer pending when its callback runs. *)
Definition fired (id : nat) (w : World S) : World S :=
  mkWorld (storage w) (clock w) (reauthTimeoutId w)
          (filter (fun t => fst t <> id) (timers w)) (nextTimer w)
          (promises w) (awaiting w) (events w).

Definition ticked (dt : Z) (w : World S) : World S :=
  mkWorld (storage w) (clock w + dt) (reauthTimeoutId w) (timers w)
          (nextTimer w) (promises w) (awaiting w) (events w).

(** The callback of every timeout is [this.authenticate.bind(this)],
    which the timer facility calls without arguments. *)
Definition timeoutCallback (state : string) : M S nat :=
  authenticate keys options JUndefined state.

Definition run (op : Op) (w : World S) : option (World S) :=
  match op with
  | OpPromptLogin loc opts => Some (snd (promptLogin keys loc opts w))
  | OpHandleLoginSuccess error parsed =>
      Some (snd (handleLoginSuccess keys options error parsed w))
  | OpAuthenticate loc state => Some (snd (authenticate keys options loc state w))
  | OpCheckSessionReply pid error result =>
      if bool_decide (pid ∈ awaiting w)
      then Some (snd (checkSessionReply keys options pid error result (answered pid w)))
      else None
  | OpLogout => Some (snd (logout keys logoutRedirectUrl w))
  | OpTimeout id state =>
      if bool_decide (id ∈ map fst (timers w))
      then Some (snd (timeoutCallback state (fired id w)))
      else None
  | OpTick dt => if 0 <=? dt then Some (ticked dt w) else None
  end.

Inductive reachable : World S -> Prop :=
| reachable_init st now : 0 < now -> reachable (initWorld st now)
| reachable_run op w w' : reachable w -> run op w = Some w' -> reachable w'.

(** The number of [setTimeout] calls among some events. *)
Definition is_arming (e : Event) : bool :=
  match e with
  | SetTimeout _ _ => true
  | _ => false
  end.

Definition armings (es : list Event) : nat :=
  length (List.filter is_arming es).


(** What a turn does to the timer: nothing, or one call of
    [setReauthenticationTimeout]. *)
Definition keeps_timer (w w' : World S) : Prop :=
  timers w' = timers w
  /\ reauthTimeoutId w' = reauthTimeoutId w
  /\ armings (events w') = armings (events w)
  /\ clock w' = clock w.

Definition rearms_timer (w w' : World S) : Prop :=
  exists delay,
    timers w'
    = filter (fun t => Some (fst t) <> reauthTimeoutId w) (timers w)
      ++ [(nextTimer w, delay)]
    /\ reauthTimeoutId w' = Some (nextTimer w)
    /\ armings (events w') = Datatypes.S (armings (events w))
    /\ clock w' = clock w.

End Machine.


(* ================================================================== *)
(** ** The accessors of the class, repeated timeouts, [src/util.ts] *)
(* ================================================================== *)

(** A medium on which a truthy value is still truthy when it is read
    back ([MemStorage] keeps it, Web Storage keeps its string form, which
    is not empty). *)
Class TruthfulStorage (S : Type) `{LawfulStorage S} : Prop := {
  getItem_setItem_truthy key v st :
    truthy v = true -> truthy (getItem key (setItem key v st)) = true
}.

Section Accessors.
Context {S : Type} `{Storage S}.
Variable keys : Keys.
Variable options : Options.
Variable logoutRedirectUrl : string.

(** [getUserId()] and [getAccessToken()] *)
Definition getUserId : M S JsVal :=
  readStorage (AuthStorage.retrieveUserId keys).

Definition getAccessToken : M S JsVal :=
  readStorage (AuthStorage.retrieveAccessToken keys).

(** The next pending timeout fires; [None] when none is pending. *)
Definition fireNext (state : string) (w : World S) : option (World S) :=
  match timers w with
  | [] => None
  | (id, _) :: _ => run keys options logoutRedirectUrl (OpTimeout id state) w
  end.

(** Timeouts fire one after the other, each call of [authenticate]
    drawing its own [state]. *)
Fixpoint fireTimes (states : list string) (w : World S) : option (World S) :=
  match states with
  | [] => Some w
  | state :: rest =>
      match fireNext state w with
      | Some w' => fireTimes rest w'
      | None => None
      end
  end.

End Accessors.

(** [src/util.ts].  The bytes that [window.crypto.getRandomValues] writes
    are an input: one list per call, in the order of the calls. *)
Module Util.

Definition charset : string :=
  "0123456789ABCDEFGHIJKLMNOPQRSTUVXYZabcdefghijklmnopqrstuvwxyz-._~".

(** [charset[c]], as it is appended to a string. *)
Definition charAt (c : nat) : string :=
  match String.get c charset with
  | Some ch => String ch EmptyString
  | None => "undefined"
  end.

(** [random.forEach(function(c) { ... })] on the variables [length] and
    [result] of the enclosing function. *)
Fixpoint forEach (random : list nat) (length : Z) (result : string)
  : Z * string :=
  match random with
  | [] => (length, result)
  | c :: rest =>
      if length =? 0 then forEach rest length result
      else if (c <? String.length charset)%nat
           then forEach rest (length - 1) (result +:+ charAt c)
           else forEach rest length result
  end.

(** The [while (length > 0)] loop; [None] when the bytes supplied run out
    before the loop ends. *)
Fixpoint randomLoop (supply : list (list nat)) (length : Z) (result : string)
  : option string :=
  if 0 <? length then
    match supply with
    | [] => None
    | random :: rest =>
        let '(length', result') := forEach random length result in
        randomLoop rest length' result'
    end
  else Some result.

(** [randomString(length = 16)] *)
Definition randomString (supply : list (list nat)) (length : option Z)
  : option string :=
  randomLoop supply (default 16 length) "".

(** The bytes that are kept, in their order. *)
Definition accepted (supply : list (list nat)) : list nat :=
  List.filter (fun c => (c <? String.length charset)%nat) (concat supply).

Fixpoint concatChars (cs : list nat) : string :=
  match cs with
  | [] => ""
  | c :: rest => charAt c +:+ concatChars rest
  end.

(** [noop] *)
Definition noop {A : Type} (args : A) : unit := tt.

End Util.

(* ================================================================== *)
(** ** Scenarios *)
(* ================================================================== *)

(** A host that passes both handlers and no leeway (so 1200 s). *)
Definition hostOptions : Options := mkOptions None true true.

(** A host that asks for a leeway of 0.0005 seconds, which is half a
    millisecond. *)
Definition fractionalLeewayOptions : Options :=
  mkOptions (Some (Frac 576460752303423 61)) true true.

(** The instant at which the scenarios run, in milliseconds. *)
Definition t0 : Z := 1700000000000.

Definition emptyWorld : World (gmap string JsVal) := initWorld ∅ t0.

(** A stored credential with two seconds left, as in the test 'access
    token fresh but within reauthentication threshold'. *)
Definition renewalDueWorld : World (gmap string JsVal) :=
  initWorld (<["user_id" := JStr "u"]>
               (<["access_token" := JStr "t"]>
                  (<["expires_at" := JNum (Int (t0 + 2000))]> ∅))) t0.

(** A stored credential that expired ten seconds ago. *)
Definition expiredWorld : World (gmap string JsVal) :=
  initWorld (<["user_id" := JStr "u"]>
               (<["access_token" := JStr "t"]>
                  (<["expires_at" := JNum (Int (t0 - 10000))]> ∅))) t0.

(** An expiry with five seconds left and no access token beside it. *)
Definition orphanExpiryWorld : World (gmap string JsVal) :=
  initWorld (<["expires_at" := JNum (Int (t0 + 5000))]> ∅) t0.

Definition validResponse : JsVal :=
  mkResponse (JStr "t1") (JObj [("sub", JStr "u")]) (JNum (Int 7200)).

(** A response of the provider without an access token. *)
Definition tokenlessResponse : JsVal :=
  mkResponse JUndefined (JObj [("sub", JStr "u")]) (JNum (Int 7200)).


(** A stored credential with two hours left, as in the test 'access
    token fresh and not within reauthentication threshold'. *)
Definition freshWorld : World (gmap string JsVal) :=
  initWorld (<["user_id" := JStr "u"]>
               (<["access_token" := JStr "t"]>
                  (<["expires_at" := JNum (Int (t0 + 7200000))]> ∅))) t0.

(** The page after a bootstrap on the empty storage, and after one on
    the credential that is due for renewal. *)
Definition anonymousWorld : World (gmap string JsVal) :=
  snd (authenticate defaultKeys hostOptions JUndefined "s" emptyWorld).

Definition renewingWorld : World (gmap string JsVal) :=
  snd (authenticate defaultKeys hostOptions JUndefined "s" renewalDueWorld).

(** The page after a login callback that carried nothing. *)
Definition failedLoginWorld : World (gmap string JsVal) :=
  snd (handleLoginSuccess defaultKeys hostOptions JUndefined JUndefined emptyWorld).

(* ================================================================== *)
(** ** The claims of the specification, as it words them *)
(* ================================================================== *)

(** §4.2, the expiration evaluator: [(false, absent)] when [expiresAt] is
    absent or not a timestamp, or when [remaining = expiresAt - now] is
    negative; otherwise fresh, with renewal due when [remaining < leeway]
    for a leeway that is a non-negative integer, and always due for any
    other leeway. *)
Definition spec_evaluate (now : Z) (expiresAt leeway : option number)
  : bool * option bool :=
  match expiresAt with
  | Some (Int _ as e) | Some (Frac _ _ as e) =>
      let remaining := num_sub e (Int now) in
      if num_lt remaining (Int 0) then (false, None)
      else
        (true,
         Some match leeway with
              | Some (Int l) => if 0 <=? l then num_lt remaining (Int l) else true
              | _ => true
              end)
  | None | Some NaN | Some (Inf _) => (false, None)
  end.

(** §4.3, the four checks of the extractor, in the order of the
    specification. *)
Inductive Check := CheckPayload | CheckToken | CheckExpiry | CheckSub.

Definition spec_is_object (v : JsVal) : bool :=
  match v with
  | JObj _ => true
  | _ => false
  end.

Definition spec_is_string (v : JsVal) : bool :=
  match v with
  | JStr _ => true
  | _ => false
  end.

(** "a number, defined, and [> -1]" *)
Definition spec_expiry_ok (v : JsVal) : bool :=
  match v with
  | JNum n => num_gt n (Int (-1))
  | _ => false
  end.

(** "present and truthy inside the claims payload" *)
Definition spec_sub_ok (payload : JsVal) : bool :=
  match payload with
  | JObj props => truthy (get_prop props "sub")
  | _ => false
  end.

Definition spec_first_violation (idTokenPayload accessToken expiresIn : JsVal)
  : option Check :=
  if negb (spec_is_object idTokenPayload) then Some CheckPayload
  else if negb (spec_is_string accessToken) then Some CheckToken
  else if negb (spec_expiry_ok expiresIn) then Some CheckExpiry
  else if negb (spec_sub_ok idTokenPayload) then Some CheckSub
  else None.

(* ================================================================== *)
(** ** Properties of numbers *)
(* ================================================================== *)

Section Rounding.

Lemma trailing_zeros_nonneg (p : positive) : 0 <= trailing_zeros p.
Proof. induction p; cbn [trailing_zeros]; lia. Qed.

(** A positive integer is an odd one times [2^trailing_zeros]. *)
Lemma trailing_zeros_odd (p : positive) :
  exists q, Z.pos p = (2 * q + 1) * 2 ^ trailing_zeros p.
Proof.
  induction p as [p IH | p IH |]; cbn [trailing_zeros].
  - exists (Z.pos p). lia.
  - destruct IH as (q & Hq). exists q.
    rewrite Z.pow_succ_r by apply trailing_zeros_nonneg. lia.
  - exists 0. reflexivity.
Qed.

Lemma pow2_pos (n : Z) : 0 <= n -> 0 < 2 ^ n.
Proof. intros. apply Z.pow_pos_nonneg; lia. Qed.

Lemma pow2_split (a b : Z) : 0 <= a <= b -> 2 ^ b = 2 ^ (b - a) * 2 ^ a.
Proof. intros. rewrite <- Z.pow_add_r by lia. f_equal. lia. Qed.

(** The order between [dyadic m k] and an integer. *)
Lemma lt_dyadic_Int (m k l : Z) :
  num_lt (dyadic m k) (Int l) = (m * 2 ^ Z.max 0 (- k) <? l * 2 ^ Z.max 0 k).
Proof.
  assert (Hcases : m = 0 \/ exists p, (m = Z.pos p \/ m = Z.neg p)
            /\ dyadic m k
               = if k <=? 0 then Int (m * 2 ^ (- k))
                 else let t := Z.min (trailing_zeros p) k in
                      if t =? k then Int (m / 2 ^ k)
                      else Frac ((m / 2 ^ t - 1) / 2) (Z.to_pos (k - t))).
  { destruct m as [|p|p]; [left; reflexivity | right; exists p; split; auto ..]. }
  destruct Hcases as [-> | (p & Hm & ->)].
  - cbn [dyadic num_lt]. rewrite Z.mul_0_l.
    pose proof (pow2_pos (Z.max 0 k) ltac:(lia)).
    destruct (Z.ltb_spec 0 l), (Z.ltb_spec 0 (l * 2 ^ Z.max 0 k)); try reflexivity; nia.
  - destruct (Z.leb_spec k 0) as [Hk | Hk].
    + cbn [num_lt]. rewrite (Z.max_r 0 (- k)), (Z.max_l 0 k) by lia.
      change (2 ^ 0) with 1. rewrite Z.mul_1_r. reflexivity.
    + rewrite (Z.max_l 0 (- k)), (Z.max_r 0 k) by lia.
      change (2 ^ 0) with 1. rewrite Z.mul_1_r.
      destruct (trailing_zeros_odd p) as (q & Hq).
      pose proof (trailing_zeros_nonneg p) as Ht.
      set (tz := trailing_zeros p) in *.
      assert (Hodd : exists q', m = (2 * q' + 1) * 2 ^ tz).
      { destruct Hm as [-> | ->]; [exists q; exact Hq|].
        exists (- q - 1). rewrite <- Pos2Z.opp_pos, Hq. ring. }
      clear Hq q. destruct Hodd as (q & Hq). cbv zeta.
      destruct (Z.eqb_spec (Z.min tz k) k) as [Hmin | Hmin].
      * cbn [num_lt].
        assert (Hdiv : m = m / 2 ^ k * 2 ^ k).
        { rewrite Hq, (pow2_split k tz) by lia.
          rewrite Z.mul_assoc, Z.div_mul by (pose proof (pow2_pos k); lia). ring. }
        pose proof (pow2_pos k ltac:(lia)).
        destruct (Z.ltb_spec (m / 2 ^ k) l), (Z.ltb_spec m (l * 2 ^ k));
          try reflexivity; nia.
      * assert (Hlt : tz < k) by lia. rewrite Z.min_l by lia. cbn [num_lt finite_lt].
        rewrite Z2Pos.id by lia.
        assert (Hdiv : m / 2 ^ tz = 2 * q + 1).
        { rewrite Hq, Z.div_mul by (pose proof (pow2_pos tz); lia). reflexivity. }
        rewrite Hdiv.
        replace (2 * ((2 * q + 1 - 1) / 2) + 1) with (2 * q + 1)
          by (replace (2 * q + 1 - 1) with (q * 2) by ring;
              rewrite Z.div_mul by lia; ring).
        change (2 ^ 0) with 1. rewrite Z.mul_1_r.
        rewrite (pow2_split tz k) by lia. rewrite Hq.
        pose proof (pow2_pos tz ltac:(lia)). pose proof (pow2_pos (k - tz) ltac:(lia)).
        destruct (Z.ltb_spec (2 * q + 1) (l * 2 ^ (k - tz))),
          (Z.ltb_spec ((2 * q + 1) * 2 ^ tz) (l * (2 ^ (k - tz) * 2 ^ tz)));
          try reflexivity; nia.
Qed.

(** [dyadic m k] is zero only for [m = 0]. *)
Lemma dyadic_zero (m k : Z) : dyadic m k = Int 0 -> m = 0.
Proof.
  destruct m as [|p|p]; [reflexivity | ..]; cbn [dyadic];
    destruct (Z.leb_spec k 0) as [Hk | Hk].
  - intros [= Hz]. pose proof (pow2_pos (- k) ltac:(lia)). nia.
  - cbv zeta. destruct (Z.eqb_spec (Z.min (trailing_zeros p) k) k) as [Hmin|]; [|discriminate].
    intros [= Hz]. destruct (trailing_zeros_odd p) as (q & Hq).
    pose proof (trailing_zeros_nonneg p).
    rewrite Hq, (pow2_split k (trailing_zeros p)), Z.mul_assoc, Z.div_mul in Hz
      by (pose proof (pow2_pos k); lia).
    pose proof (pow2_pos (trailing_zeros p - k) ltac:(lia)). nia.
  - intros [= Hz]. pose proof (pow2_pos (- k) ltac:(lia)). nia.
  - cbv zeta. destruct (Z.eqb_spec (Z.min (trailing_zeros p) k) k) as [Hmin|]; [|discriminate].
    intros [= Hz]. destruct (trailing_zeros_odd p) as (q & Hq).
    pose proof (trailing_zeros_nonneg p).
    rewrite <- Pos2Z.opp_pos in Hz.
    rewrite Hq, (pow2_split k (trailing_zeros p)) in Hz by lia.
    replace (- ((2 * q + 1) * (2 ^ (trailing_zeros p - k) * 2 ^ k)))
      with (- ((2 * q + 1) * 2 ^ (trailing_zeros p - k)) * 2 ^ k) in Hz by ring.
    rewrite Z.div_mul in Hz by (pose proof (pow2_pos k); lia).
    pose proof (pow2_pos (trailing_zeros p - k) ltac:(lia)). nia.
Qed.

(** *** Rounding to the nearest, ties to even *)

Lemma round_half_even_bounds (a s : Z) :
  0 <= s -> a / 2 ^ s <= round_half_even a s <= a / 2 ^ s + 1.
Proof.
  intros. unfold round_half_even.
  destruct (2 * (a mod 2 ^ s) ?= 2 ^ s); [destruct (Z.even _)|..]; lia.
Qed.

Lemma round_half_even_exact (c s : Z) :
  0 <= s -> round_half_even (c * 2 ^ s) s = c.
Proof.
  intros Hs. pose proof (pow2_pos s Hs). unfold round_half_even.
  rewrite Z.mod_mul, Z.div_mul by lia.
  destruct (Z.compare_spec (2 * 0) (2 ^ s)); lia.
Qed.

Lemma round_half_even_0 (a : Z) : round_half_even a 0 = a.
Proof.
  rewrite <- (Z.mul_1_r a) at 1. change 1 with (2 ^ 0) at 1.
  apply round_half_even_exact. lia.
Qed.

Lemma round_half_even_mono (a b s : Z) :
  0 <= s -> a <= b -> round_half_even a s <= round_half_even b s.
Proof.
  intros Hs Hab. pose proof (pow2_pos s Hs) as HP.
  pose proof (Z.div_le_mono a b (2 ^ s) HP Hab) as Hq.
  destruct (Z.eq_dec (a / 2 ^ s) (b / 2 ^ s)) as [Heq | Hne].
  - assert (Hr : a mod 2 ^ s <= b mod 2 ^ s).
    { pose proof (Z.div_mod a (2 ^ s) ltac:(lia)).
      pose proof (Z.div_mod b (2 ^ s) ltac:(lia)). nia. }
    unfold round_half_even. rewrite <- Heq.
    destruct (Z.compare_spec (2 * (a mod 2 ^ s)) (2 ^ s)),
      (Z.compare_spec (2 * (b mod 2 ^ s)) (2 ^ s));
      destruct (Z.even (a / 2 ^ s)); lia.
  - pose proof (round_half_even_bounds a s Hs).
    pose proof (round_half_even_bounds b s Hs). lia.
Qed.

Lemma excess_bits_nonneg a : 0 <= excess_bits a.
Proof. unfold excess_bits. lia. Qed.

Lemma excess_bits_mono a b : a <= b -> excess_bits a <= excess_bits b.
Proof. intros. unfold excess_bits. pose proof (Z.log2_le_mono a b). lia. Qed.

(** What is rounded away is less than the value: a positive value stays
    positive, and is at least [2^52] units when something is rounded
    away. *)
Lemma round_half_even_shift_lower (a : Z) :
  0 < a -> 0 < excess_bits a -> 2 ^ 52 <= round_half_even a (excess_bits a).
Proof.
  intros Ha Hs. unfold excess_bits in *.
  assert (Hlog : Z.log2 a = 52 + Z.max 0 (Z.log2 a + 1 - 53)) by lia.
  pose proof (Z.log2_spec a Ha) as [Hlow _]. rewrite Hlog in Hlow at 1.
  rewrite Z.pow_add_r in Hlow by lia.
  rewrite <- (round_half_even_exact (2 ^ 52) (Z.max 0 (Z.log2 a + 1 - 53))) by lia.
  apply round_half_even_mono; lia.
Qed.

Lemma round_half_even_shift_upper (a : Z) :
  0 < a -> round_half_even a (excess_bits a) * 2 ^ excess_bits a <= 2 ^ (Z.log2 a + 1).
Proof.
  intros Ha. pose proof (excess_bits_nonneg a) as Hs.
  pose proof (Z.log2_spec a Ha) as [_ Hup]. rewrite <- Z.add_1_r in Hup.
  pose proof (Z.log2_nonneg a).
  assert (Hle : excess_bits a <= Z.log2 a + 1) by (unfold excess_bits; lia).
  rewrite (pow2_split (excess_bits a) (Z.log2 a + 1)) by lia.
  apply Z.mul_le_mono_nonneg_r; [pose proof (pow2_pos (excess_bits a)); lia|].
  rewrite <- (round_half_even_exact (2 ^ (Z.log2 a + 1 - excess_bits a)) (excess_bits a)) by lia.
  apply round_half_even_mono; [lia|].
  rewrite <- pow2_split by lia. lia.
Qed.

Lemma round_abs_pos (a : Z) : 0 < a -> 0 < round_abs a.
Proof.
  intros Ha. unfold round_abs. pose proof (excess_bits_nonneg a).
  pose proof (pow2_pos (excess_bits a) ltac:(lia)).
  destruct (Z.eq_dec (excess_bits a) 0) as [Hz | Hz].
  - rewrite Hz, round_half_even_0. change (2 ^ 0) with 1. lia.
  - pose proof (round_half_even_shift_lower a Ha ltac:(lia)).
    assert (0 < 2 ^ 52) by reflexivity. nia.
Qed.

Lemma round_abs_0 : round_abs 0 = 0.
Proof. reflexivity. Qed.

Lemma round_abs_mono (a b : Z) : 0 <= a -> a <= b -> round_abs a <= round_abs b.
Proof.
  intros Ha Hab.
  destruct (Z.eq_dec a 0) as [-> | Ha0].
  - destruct (Z.eq_dec b 0) as [-> | Hb0]; [lia|].
    pose proof (round_abs_pos b ltac:(lia)). rewrite round_abs_0. lia.
  - pose proof (excess_bits_mono a b Hab) as Hs.
    pose proof (excess_bits_nonneg a). pose proof (excess_bits_nonneg b).
    destruct (Z.eq_dec (excess_bits a) (excess_bits b)) as [Heq | Hne].
    + unfold round_abs. rewrite Heq.
      apply Z.mul_le_mono_nonneg_r; [pose proof (pow2_pos (excess_bits b)); lia|].
      apply round_half_even_mono; lia.
    + pose proof (round_half_even_shift_upper a ltac:(lia)) as Hup.
      pose proof (round_half_even_shift_lower b ltac:(lia) ltac:(lia)) as Hlow.
      unfold round_abs.
      assert (Hlog : Z.log2 a + 1 <= 52 + excess_bits b) by (unfold excess_bits in *; lia).
      pose proof (Z.log2_nonneg a).
      assert (Hpow : 2 ^ (Z.log2 a + 1) <= 2 ^ (52 + excess_bits b))
        by (apply Z.pow_le_mono_r; lia).
      rewrite (Z.pow_add_r 2 52 (excess_bits b)) in Hpow by lia.
      pose proof (pow2_pos (excess_bits b) ltac:(lia)). nia.
Qed.

Lemma rounded_rho (m : Z) : rounded m = Z.sgn m * round_abs (Z.abs m).
Proof. unfold rounded, round_abs, excess_bits. ring. Qed.

(** Rounding keeps the order, and the sign. *)
Lemma rounded_mono (m1 m2 : Z) : m1 <= m2 -> rounded m1 <= rounded m2.
Proof.
  intros H. unfold rounded.
  destruct (Z.lt_trichotomy m1 0) as [H1 | [-> | H1]];
    destruct (Z.lt_trichotomy m2 0) as [H2 | [-> | H2]]; try lia.
  - rewrite !Z.sgn_neg by lia.
    pose proof (round_abs_mono (Z.abs m2) (Z.abs m1)). lia.
  - rewrite Z.sgn_neg by lia. cbn. pose proof (round_abs_pos (Z.abs m1)). lia.
  - rewrite Z.sgn_neg, Z.sgn_pos by lia.
    pose proof (round_abs_pos (Z.abs m1)). pose proof (round_abs_pos (Z.abs m2)). lia.
  - cbn. rewrite Z.sgn_pos by lia. pose proof (round_abs_pos (Z.abs m2)). lia.
  - rewrite !Z.sgn_pos by lia.
    pose proof (round_abs_mono (Z.abs m1) (Z.abs m2)). lia.
Qed.

Lemma rounded_sign (m : Z) : (rounded m <? 0) = (m <? 0).
Proof.
  unfold rounded.
  destruct (Z.lt_trichotomy m 0) as [H | [-> | H]].
  - rewrite Z.sgn_neg by lia. pose proof (round_abs_pos (Z.abs m)).
    destruct (Z.ltb_spec (-1 * round_abs (Z.abs m)) 0), (Z.ltb_spec m 0); lia.
  - reflexivity.
  - rewrite Z.sgn_pos by lia. pose proof (round_abs_pos (Z.abs m)).
    destruct (Z.ltb_spec (1 * round_abs (Z.abs m)) 0), (Z.ltb_spec m 0); lia.
Qed.

(** The order between a rounded dyadic and an integer. *)
Lemma lt_round53_Int (m k l : Z) :
  0 <= k -> num_lt (round53 m k) (Int l) = (rounded m <? l * 2 ^ k).
Proof.
  intros Hk. unfold round53, rounded, round_abs. rewrite lt_dyadic_Int.
  pose proof (excess_bits_nonneg (Z.abs m)) as Hs.
  set (s := excess_bits (Z.abs m)) in *.
  rewrite Z.mul_assoc.
  set (M := Z.sgn m * round_half_even (Z.abs m) s).
  destruct (Z.le_ge_cases s k) as [Hsk | Hsk].
  - rewrite (Z.max_l 0 (- (k - s))), (Z.max_r 0 (k - s)) by lia.
    change (2 ^ 0) with 1. rewrite Z.mul_1_r.
    rewrite (pow2_split s k) by lia.
    pose proof (pow2_pos s Hs). pose proof (pow2_pos (k - s) ltac:(lia)).
    destruct (Z.ltb_spec M (l * 2 ^ (k - s))),
      (Z.ltb_spec (M * 2 ^ s) (l * (2 ^ (k - s) * 2 ^ s))); try reflexivity; nia.
  - rewrite (Z.max_r 0 (- (k - s))), (Z.max_l 0 (k - s)) by lia.
    change (2 ^ 0) with 1. rewrite Z.mul_1_r.
    replace (- (k - s)) with (s - k) by lia.
    rewrite (pow2_split k s) by lia.
    pose proof (pow2_pos k Hk). pose proof (pow2_pos (s - k) ltac:(lia)).
    destruct (Z.ltb_spec (M * 2 ^ (s - k)) l),
      (Z.ltb_spec (M * (2 ^ (s - k) * 2 ^ k)) (l * 2 ^ k)); try reflexivity; nia.
Qed.

(** A rounded dyadic is zero only when the exact value is. *)
Lemma round53_zero (m k : Z) : round53 m k = Int 0 -> m = 0.
Proof.
  unfold round53. intros Hz. apply dyadic_zero in Hz.
  destruct (Z.eq_dec m 0) as [|Hm]; [assumption|].
  pose proof (round_abs_pos (Z.abs m) ltac:(lia)) as Hpos. unfold round_abs in Hpos.
  destruct (Z.lt_trichotomy m 0) as [H | [H | H]]; [|contradiction|].
  - rewrite Z.sgn_neg in Hz by lia. nia.
  - rewrite Z.sgn_pos in Hz by lia. nia.
Qed.

(** *** Integers within the safe range *)

Lemma isSafeInteger_log2 (z : Z) :
  isSafeInteger z -> (Z.log2 (Z.abs z) <? 53) = true.
Proof.
  unfold isSafeInteger, MAX_SAFE_INTEGER. intros Hz.
  apply Z.ltb_lt. destruct (Z.eq_dec z 0) as [-> | Hz0]; [reflexivity|].
  apply Z.log2_lt_pow2; lia.
Qed.

(** The double nearest to a safe integer is that integer, and it prints
    as its decimal numeral. *)
Lemma round_int_safe (z : Z) : isSafeInteger z -> round_int z = Int z.
Proof. intros Hz. unfold round_int. rewrite isSafeInteger_log2 by done. reflexivity. Qed.

Lemma string_of_number_safe (z : Z) :
  isSafeInteger z -> string_of_number (Int z) = string_of_Z z.
Proof.
  intros Hz. cbn [string_of_number]. rewrite isSafeInteger_log2 by done. reflexivity.
Qed.

(** *** Differences and products with a side that is not an integer *)

Lemma num_sub_Frac_Int (h : Z) (k : positive) (y : Z) :
  num_sub (Frac h k) (Int y) = round53 (2 * h + 1 - y * 2 ^ Z.pos k) (Z.pos k).
Proof.
  cbn [num_sub finite_add].
  rewrite Z.max_l, Z.sub_diag, Z.sub_0_r by lia.
  f_equal. change (2 ^ 0) with 1. ring.
Qed.

Lemma num_mul_Frac_Int (h : Z) (k : positive) (y : Z) :
  num_mul (Frac h k) (Int y) = round53 ((2 * h + 1) * y) (Z.pos k).
Proof. cbn [num_mul finite_mul]. rewrite Z.add_0_r. reflexivity. Qed.

Lemma isNaN_dyadic (m k : Z) : isNaN (dyadic m k) = false.
Proof.
  destruct m; cbn [dyadic]; [reflexivity | ..];
    repeat match goal with
      | |- context [if ?b then _ else _] => destruct b
      end; reflexivity.
Qed.

Lemma isNaN_round53 (m k : Z) : isNaN (round53 m k) = false.
Proof. apply isNaN_dyadic. Qed.

Lemma isNaN_remaining_Frac (h : Z) (k : positive) (now : Z) :
  isNaN (num_sub (Frac h k) (Int now)) = false.
Proof. rewrite num_sub_Frac_Int. apply isNaN_round53. Qed.

(** A double that is not an integer lies before the clock exactly when
    the difference, which is rounded, is negative. *)
Lemma remaining_Frac_negative (h : Z) (k : positive) (now : Z) :
  num_lt (num_sub (Frac h k) (Int now)) (Int 0) = (2 * h + 1 <? now * 2 ^ Z.pos k).
Proof.
  rewrite num_sub_Frac_Int, lt_round53_Int, Z.mul_0_l, rounded_sign by lia.
  destruct (Z.ltb_spec (2 * h + 1 - now * 2 ^ Z.pos k) 0),
    (Z.ltb_spec (2 * h + 1) (now * 2 ^ Z.pos k)); try reflexivity; lia.
Qed.

(** As the clock advances, what remains of a double does not grow. *)
Lemma remaining_Frac_mono (h : Z) (k : positive) (now later l : Z) :
  now <= later ->
  num_lt (num_sub (Frac h k) (Int now)) (Int l) = true ->
  num_lt (num_sub (Frac h k) (Int later)) (Int l) = true.
Proof.
  intros Hlater. rewrite !num_sub_Frac_Int, !lt_round53_Int by lia.
  rewrite !Z.ltb_lt. intros Hnow.
  pose proof (pow2_pos (Z.pos k) ltac:(lia)).
  pose proof (rounded_mono (2 * h + 1 - later * 2 ^ Z.pos k)
                           (2 * h + 1 - now * 2 ^ Z.pos k) ltac:(nia)).
  lia.
Qed.


Example number_examples :
  num_mul (Frac (-1) 1) (Int 1000) = Int (-500)
  /\ num_mul (Frac 576460752303423 61) (Int 1000) = Frac 0 1
  /\ num_mul (Frac 1801439850948198 55) (Int 1000) = Int 100
  /\ num_add (Int 1) (Frac 1801439850948198 55) = Frac 1238489897526886 51
  /\ num_sub (Inf false) (Int 5) = Inf false
  /\ num_lt (Frac 0 1) (Int 1) = true
  /\ round_int (2 ^ 53 + 1) = Int (2 ^ 53)
  /\ string_of_number (Frac 0 1) = "0.5"
  /\ string_of_number (Frac 1801439850948198 55) = "0.1"
  /\ string_of_number (Frac 1 1) = "1.5"
  /\ string_of_number (Int (10 ^ 21)) = "1e+21"
  /\ string_of_number (Int (2 ^ 53 + 2)) = "9007199254740994"
  /\ string_of_number (Frac 0 1074) = "5e-324".
Proof. repeat split; vm_compute; reflexivity. Qed.

End Rounding.

(* ================================================================== *)
(** ** Properties of the extractor and of the evaluator *)
(* ================================================================== *)

Example extract_test_valid :
  extractAuthData 5 (mkResponse (JStr "t") (JObj [("sub", JStr "u")]) (JNum (Int 7200)))
  = Ok (mkAuthData (JStr "u") "t" (Int 7200005)).
Proof. reflexivity. Qed.

Example extract_test_negative :
  extractAuthData 5 (mkResponse (JStr "t") (JObj [("sub", JStr "u")]) (JNum (Int (-5))))
  = Throw (Error "expected expiresIn to be a positive integer, got -5").
Proof. reflexivity. Qed.

Example extract_test_payload :
  extractAuthData 5 (mkResponse (JStr "t") (JNum (Int 5)) (JNum (Int 7200)))
  = Throw (Error "expected idTokenPayload to be an object, got 5").
Proof. reflexivity. Qed.

(** [expiresIn] need not be an integer, nor finite: [-0.5] and
    [Infinity] pass the third check, [-1.5] does not. *)
Example extract_test_fraction :
  extractAuthData 5000
    (mkResponse (JStr "t") (JObj [("sub", JStr "u")]) (JNum (Frac (-1) 1)))
  = Ok (mkAuthData (JStr "u") "t" (Int 4500))
  /\ extractAuthData 5000
       (mkResponse (JStr "t") (JObj [("sub", JStr "u")]) (JNum (Inf false)))
     = Ok (mkAuthData (JStr "u") "t" (Inf false))
  /\ extractAuthData 5000
       (mkResponse (JStr "t") (JObj [("sub", JStr "u")]) (JNum (Frac (-2) 1)))
     = Throw (Error "expected expiresIn to be a positive integer, got -1.5").
Proof. repeat split; vm_compute; reflexivity. Qed.

Example evaluate_tests :
  extractExpirationData 100000 None (Some (Int 7200)) = (false, None)
  /\ extractExpirationData 100000 (Some (Int 90000)) (Some (Int 7200)) = (false, None)
  /\ extractExpirationData 100000 (Some (Int 105000)) (Some (Int 7200)) = (true, Some true)
  /\ extractExpirationData 100000 (Some (Int 109000)) (Some (Int 7200)) = (true, Some false).
Proof. repeat split. Qed.

Lemma get_obj props key : get (JObj props) key = Some (get_prop props key).
Proof. reflexivity. Qed.

Lemma destructure_obj props :
  destructure (JObj props)
  = Some (get_prop props "idTokenPayload", get_prop props "accessToken",
          get_prop props "expiresIn").
Proof. reflexivity. Qed.

(** Whatever is extracted comes from a payload that is an object, a
    token that is a string and an [expiresIn] that is a truthy number
    above [-1]: the fall-back branch of [extractAuthData] is dead. *)
Lemma extractAuthData_Ok_inv now parsed d :
  extractAuthData now parsed = Ok d ->
  exists p a e payload token seconds,
    destructure parsed = Some (p, a, e)
    /\ p = JObj payload /\ a = JStr token /\ e = JNum seconds
    /\ truthy (JNum seconds) = true
    /\ num_gt seconds (Int (-1)) = true
    /\ truthy (get_prop payload "sub") = true
    /\ d = mkAuthData (get_prop payload "sub") token
             (num_add (Int now) (num_mul seconds (Int 1000))).
Proof.
  unfold extractAuthData.
  destruct (destructure parsed) as [[[p a] e]|] eqn:Hd; [|discriminate].
  destruct (decide (typeof p = TObject)) as [Hp | Hp];
    [rewrite (bool_decide_true _ Hp) | rewrite (bool_decide_false _ Hp); discriminate].
  destruct (decide (typeof a = TString)) as [Ha | Ha];
    [rewrite (bool_decide_true _ Ha) | rewrite (bool_decide_false _ Ha); discriminate].
  destruct (decide (typeof e = TNumber)) as [He | He];
    [rewrite (bool_decide_true _ He)
    | rewrite (bool_decide_false _ He), orb_true_r; discriminate].
  destruct a as [| |?|?|token|?]; try discriminate.
  destruct e as [| |?|seconds|?|?]; try discriminate.
  cbn [gt_minus_one negb orb].
  destruct (truthy (JNum seconds)) eqn:Ht; [|discriminate].
  destruct (num_gt seconds (Int (-1))) eqn:Hg; [|discriminate].
  destruct p as [| |?|?|?|payload]; try discriminate.
  cbn [negb orb get].
  destruct (truthy (get_prop payload "sub")) eqn:Hs; [|discriminate].
  cbn [negb]. intros [= <-].
  exists (JObj payload), (JStr token), (JNum seconds), payload, token, seconds.
  repeat split; done.
Qed.

(** *** The expiration evaluator *)

(** C3, counterexample: with a leeway of [0], which is a non-negative
    integer duration, the specification's evaluator answers "renewal not
    due" for a credential with 5 seconds left ([5000 < 0] is false); the
    code answers "renewal due", because [leeway && ...] takes [0] for an
    absent leeway.  With a leeway of [-5], which is not a non-negative
    duration, the specification's evaluator answers "renewal due"; the
    code compares, and answers "not due". *)
Lemma evaluate_zero_leeway_counterexample :
  extractExpirationData 100000 (Some (Int 105000)) (Some (Int 0)) = (true, Some true)
  /\ spec_evaluate 100000 (Some (Int 105000)) (Some (Int 0)) = (true, Some false)
  /\ extractExpirationData 100000 (Some (Int 105000)) (Some (Int (-5)))
     = (true, Some false)
  /\ spec_evaluate 100000 (Some (Int 105000)) (Some (Int (-5))) = (true, Some true).
Proof. repeat split; reflexivity. Qed.

(** C3, amended: with the clock past the epoch, and the clock and an
    integer [expiresAt] within the safe integers, the evaluator returns
    [(false, absent)] when [expiresAt] is absent, [NaN] or [-Infinity],
    and when [remaining = expiresAt - now] is negative; otherwise (a
    finite [expiresAt], an integer or not, that is not before [now], or
    [Infinity]) it returns [isFresh = true], with
    [isRenewalDue = (remaining < leeway)] for every leeway that is a
    non-zero integer (negative ones included), and [isRenewalDue = true]
    for any other leeway: absent, [NaN], [0], not an integer, infinite. *)
Theorem extractExpirationData_cases (now : Z) (expiresAt leeway : option number) :
  0 < now ->
  isSafeInteger now ->
  (forall e, expiresAt = Some (Int e) -> isSafeInteger e) ->
  let isRenewalDue (remaining : number) : option bool :=
    Some match leeway with
         | Some (Int l) => if l =? 0 then true else num_lt remaining (Int l)
         | Some (Frac _ _) | Some (Inf _) | Some NaN | None => true
         end in
  extractExpirationData now expiresAt leeway =
    match expiresAt with
    | None | Some NaN | Some (Inf true) => (false, None)
    | Some (Inf false) => (true, isRenewalDue (Inf false))
    | Some (Int e) =>
        if e - now <? 0 then (false, None)
        else (true, isRenewalDue (Int (e - now)))
    | Some (Frac h k) =>
        if 2 * h + 1 <? now * 2 ^ Z.pos k then (false, None)
        else (true, isRenewalDue (num_sub (Frac h k) (Int now)))
    end.
Proof.
  intros Hnow _ _ isRenewalDue. subst isRenewalDue. unfold extractExpirationData.
  assert (Hdue : forall remaining : number,
    (if truthy (of_opt leeway) && isInteger leeway
     then num_lt remaining (toNumber leeway) else true)
    = match leeway with
      | Some (Int l) => if l =? 0 then true else num_lt remaining (Int l)
      | _ => true
      end).
  { intros remaining. destruct leeway as [[l | h k | b |]|]; try reflexivity.
    cbn [of_opt truthy isInteger toNumber]. destruct (l =? 0); reflexivity. }
  cbv zeta. rewrite Hdue. clear Hdue.
  destruct expiresAt as [[e | h k | [] |]|]; cbn [of_opt truthy toNumber negb];
    try reflexivity.
  - destruct (Z.eqb_spec e 0) as [-> | He]; cbn [negb].
    + destruct (Z.ltb_spec (0 - now) 0); [reflexivity | lia].
    + cbn [num_sub isNaN orb num_lt]. destruct (e - now <? 0); reflexivity.
  - rewrite isNaN_remaining_Frac. cbn [orb].
    rewrite remaining_Frac_negative.
    destruct (2 * h + 1 <? now * 2 ^ Z.pos k); reflexivity.
Qed.

Lemma extractExpirationData_cases_witness :
  0 < 100000
  /\ isSafeInteger 100000
  /\ (forall e, Some (Int 109000) = Some (Int e) -> isSafeInteger e)
  /\ extractExpirationData 100000 (Some (Int 109000)) (Some (Int 7200))
     = (true, Some false)
  /\ extractExpirationData 100000 (Some (Int 109000)) (Some (Frac 0 1))
     = (true, Some true)
  /\ extractExpirationData 100000 (Some (Inf false)) (Some (Int 7200))
     = (true, Some false)
  /\ extractExpirationData 100000 (Some (Frac 100500 1)) (Some (Int 7200))
     = (true, Some true).
Proof.
  assert (Hnow : 0 < 100000) by lia.
  assert (Hsafe : isSafeInteger 100000)
    by (unfold isSafeInteger, MAX_SAFE_INTEGER; lia).
  assert (Hint : forall e, Some (Int 109000) = Some (Int e) -> isSafeInteger e)
    by (intros e [= <-]; unfold isSafeInteger, MAX_SAFE_INTEGER; lia).
  split; [exact Hnow|]. split; [exact Hsafe|]. split; [exact Hint|].
  split; [exact (extractExpirationData_cases 100000 (Some (Int 109000))
                   (Some (Int 7200)) Hnow Hsafe Hint)|].
  split; [exact (extractExpirationData_cases 100000 (Some (Int 109000))
                   (Some (Frac 0 1)) Hnow Hsafe Hint)|].
  split; [exact (extractExpirationData_cases 100000 (Some (Inf false))
                   (Some (Int 7200)) Hnow Hsafe ltac:(discriminate))|].
  exact (extractExpirationData_cases 100000 (Some (Frac 100500 1))
           (Some (Int 7200)) Hnow Hsafe ltac:(discriminate)).
Defined.

(** On arguments of the declared type [number | undefined], what remains
    is never [NaN] once [expiresAt] is truthy: the guard
    [isNaN(expiresWithin)] cannot fire. *)
Lemma extractExpirationData_remaining_number (now : Z) (expiresAt : option number) :
  truthy (of_opt expiresAt) = true ->
  isNaN (num_sub (toNumber expiresAt) (Int now)) = false.
Proof.
  destruct expiresAt as [[e | h k | b |]|]; cbn [of_opt truthy toNumber];
    try discriminate; intros _; try reflexivity.
  apply isNaN_remaining_Frac.
Qed.

(** Where [expiresAt] is not [Infinity] and the leeway is a positive
    integer or not an integer at all, the code is the evaluator of the
    specification. *)
Lemma extractExpirationData_spec_evaluate now expiresAt leeway :
  0 < now ->
  expiresAt <> Some (Inf false) ->
  (forall l, leeway = Some (Int l) -> 0 < l) ->
  extractExpirationData now expiresAt leeway = spec_evaluate now expiresAt leeway.
Proof.
  intros Hnow Hinf Hl. unfold extractExpirationData, spec_evaluate.
  assert (Hdue : forall remaining : number,
    (if truthy (of_opt leeway) && isInteger leeway
     then num_lt remaining (toNumber leeway) else true)
    = match leeway with
      | Some (Int l) => if 0 <=? l then num_lt remaining (Int l) else true
      | _ => true
      end).
  { intros remaining. destruct leeway as [[l | h k | b |]|]; try reflexivity.
    specialize (Hl l eq_refl). cbn [of_opt truthy isInteger toNumber].
    destruct (Z.eqb_spec l 0); [lia|]. destruct (Z.leb_spec 0 l); [reflexivity | lia]. }
  cbv zeta. rewrite Hdue. clear Hdue.
  destruct expiresAt as [[e | h k | [] |]|]; cbn [of_opt truthy toNumber negb];
    try reflexivity; try congruence.
  - destruct (Z.eqb_spec e 0) as [-> | He]; cbn [negb].
    + cbn [num_sub num_lt]. destruct (Z.ltb_spec (0 - now) 0); [reflexivity | lia].
    + reflexivity.
  - rewrite isNaN_remaining_Frac. reflexivity.
Qed.

(** The evaluator never reports renewal for a credential that is not
    fresh. *)
Lemma extractExpirationData_not_fresh now expiresAt leeway due :
  extractExpirationData now expiresAt leeway = (false, due) -> due = None.
Proof.
  unfold extractExpirationData.
  repeat match goal with
    | |- context [if ?b then _ else _] => destruct b
    end; congruence.
Qed.

(** *** The response extractor *)

(** A response with an object payload that has a truthy [sub], a string
    token and an [expiresIn] that is a truthy number above [-1] is
    extracted. *)
Lemma extractAuthData_accepts
  (now : Z) (props payload : list (string * JsVal)) (token : string)
  (expiresIn : number) :
  get_prop props "accessToken" = JStr token ->
  get_prop props "idTokenPayload" = JObj payload ->
  truthy (get_prop payload "sub") = true ->
  get_prop props "expiresIn" = JNum expiresIn ->
  truthy (JNum expiresIn) = true ->
  num_gt expiresIn (Int (-1)) = true ->
  extractAuthData now (JObj props)
  = Ok (mkAuthData (get_prop payload "sub") token
          (num_add (Int now) (num_mul expiresIn (Int 1000)))).
Proof.
  intros Ha Hp Hsub He Ht Hg.
  unfold extractAuthData. rewrite destructure_obj, Ha, Hp, He.
  cbn [typeof gt_minus_one get].
  rewrite !bool_decide_true by reflexivity. rewrite Ht, Hg, Hsub. reflexivity.
Qed.




(** C7, counterexample: on [expiresIn = 0] none of the four checks of
    the specification is violated ([0] is a defined number greater than
    [-1]), and the code fails with the message of check (3). *)
Lemma extract_order_counterexample :
  spec_first_violation (JObj [("sub", JStr "u")]) (JStr "t") (JNum (Int 0)) = None
  /\ extractAuthData 1000
       (mkResponse (JStr "t") (JObj [("sub", JStr "u")]) (JNum (Int 0)))
     = Throw (Error "expected expiresIn to be a positive integer, got 0").
Proof. split; reflexivity. Qed.

(** C7, amended: extraction of a response object validates in this order
    and fails with these messages, the first violated check determining
    the error: (1) [typeof idTokenPayload] is not ['object']; (2)
    [accessToken] is not a string; (3) [expiresIn] is falsy ([undefined],
    [0], [NaN], ...), not a number, or not greater than [-1]; (4) the
    claims payload is an object literal whose [sub] is missing or falsy.
    With an object payload and no check violated, extraction succeeds. *)
Theorem extractAuthData_validation_order
  (now : Z) (props : list (string * JsVal)) :
  let idTokenPayload := get_prop props "idTokenPayload" in
  let accessToken := get_prop props "accessToken" in
  let expiresIn := get_prop props "expiresIn" in
  let r := extractAuthData now (JObj props) in
  (typeof idTokenPayload <> TObject ->
   r = Throw (Error ("expected idTokenPayload to be an object, got "
                       +:+ toString idTokenPayload)))
  /\ (typeof idTokenPayload = TObject -> typeof accessToken <> TString ->
      r = Throw (Error ("expected accessToken to be a string, got "
                          +:+ toString accessToken)))
  /\ (typeof idTokenPayload = TObject -> typeof accessToken = TString ->
      truthy expiresIn = false \/ typeof expiresIn <> TNumber
        \/ gt_minus_one expiresIn = false ->
      r = Throw (Error ("expected expiresIn to be a positive integer, got "
                          +:+ toString expiresIn)))
  /\ (forall payload,
        idTokenPayload = JObj payload -> typeof accessToken = TString ->
        truthy expiresIn = true -> typeof expiresIn = TNumber ->
        gt_minus_one expiresIn = true ->
        truthy (get_prop payload "sub") = false ->
        r = Throw (Error "idTokenPayload.sub not found in parsed hash"))
  /\ (forall payload,
        idTokenPayload = JObj payload -> typeof accessToken = TString ->
        truthy expiresIn = true -> typeof expiresIn = TNumber ->
        gt_minus_one expiresIn = true ->
        truthy (get_prop payload "sub") = true ->
        exists d, r = Ok d).
Proof.
  intros p a e r. subst r. unfold extractAuthData.
  rewrite destructure_obj. fold p a e.
  repeat split.
  - intros Hp. rewrite bool_decide_false by done. reflexivity.
  - intros Hp Ha. rewrite (bool_decide_true _ Hp), bool_decide_false by done.
    reflexivity.
  - intros Hp Ha He.
    rewrite (bool_decide_true _ Hp), (bool_decide_true _ Ha). simpl.
    destruct He as [He | [He | He]].
    + rewrite He. reflexivity.
    + rewrite (bool_decide_false _ He), orb_true_r. reflexivity.
    + rewrite He, !orb_true_r. reflexivity.
  - intros payload Hp Ha He1 He2 He3 Hsub.
    rewrite (bool_decide_true (typeof p = TObject)) by (rewrite Hp; done).
    rewrite (bool_decide_true _ Ha), (bool_decide_true _ He2), He1, He3. simpl.
    rewrite Hp. simpl. rewrite Hsub. reflexivity.
  - intros payload Hp Ha He1 He2 He3 Hsub.
    rewrite (bool_decide_true (typeof p = TObject)) by (rewrite Hp; done).
    rewrite (bool_decide_true _ Ha), (bool_decide_true _ He2), He1, He3. simpl.
    rewrite Hp. simpl. rewrite Hsub. simpl.
    destruct a; try discriminate. destruct e; try discriminate. eauto.
Qed.

Lemma extractAuthData_validation_order_witness :
  typeof (JObj [("sub", JStr "u")]) = TObject
  /\ typeof (JNum (Int 5)) <> TString
  /\ extractAuthData t0
       (mkResponse (JNum (Int 5)) (JObj [("sub", JStr "u")]) JUndefined)
     = Throw (Error "expected accessToken to be a string, got 5").
Proof.
  assert (Hp : typeof (JObj [("sub", JStr "u")]) = TObject) by reflexivity.
  assert (Ha : typeof (JNum (Int 5)) <> TString) by discriminate.
  split; [exact Hp|]. split; [exact Ha|].
  exact (proj1 (proj2 (extractAuthData_validation_order t0
                         [("accessToken", JNum (Int 5));
                          ("idTokenPayload", JObj [("sub", JStr "u")]);
                          ("expiresIn", JUndefined)])) Hp Ha).
Defined.

(* ================================================================== *)
(** ** Numbers through strings *)
(* ================================================================== *)

Section Numerals.

Local Ltac eval_digit :=
  repeat match goal with
    | |- context [dec_digit ?c] =>
        let v := eval vm_compute in (dec_digit c) in
        change (dec_digit c) with v
    end.

Lemma digits_string_of_uint (u : uint) (a : Z) :
  digits dec_digit 10 (NilEmpty.string_of_uint u) (Some a) = Some (uint_value u a).
Proof.
  revert a. induction u; intros a;
    cbn [NilEmpty.string_of_uint digits uint_value]; [reflexivity | ..];
    eval_digit; cbv iota; apply IHu.
Qed.

Lemma digits_string_of_uint_start (u : uint) :
  u <> Nil ->
  digits dec_digit 10 (NilEmpty.string_of_uint u) None = Some (uint_value u 0).
Proof.
  destruct u; [congruence | ..]; intros _;
    cbn [NilEmpty.string_of_uint digits uint_value];
    eval_digit; cbv iota; apply digits_string_of_uint.
Qed.

Lemma of_uint_acc_value (u : uint) (p : positive) :
  Z.pos (Pos.of_uint_acc u p) = uint_value u (Z.pos p).
Proof.
  revert p. induction u; intros p; cbn [Pos.of_uint_acc uint_value];
    [reflexivity | ..]; rewrite IHu; f_equal; lia.
Qed.

Lemma of_uint_value (u : uint) : Z.of_N (Pos.of_uint u) = uint_value u 0.
Proof.
  induction u; cbn [Pos.of_uint uint_value]; [reflexivity | exact IHu | ..];
    cbn [Z.of_N]; apply of_uint_acc_value.
Qed.

Lemma to_uint_value (p : positive) : uint_value (Pos.to_uint p) 0 = Z.pos p.
Proof. rewrite <- of_uint_value, DecimalPos.Unsigned.of_to. reflexivity. Qed.

(** Evaluates [parseInt_string] on the characters that are known. *)
Local Ltac parse_head :=
  cbv -[digits dec_digit NilEmpty.string_of_uint uint_value Z.opp round_int].

(** A decimal numeral has no leading blank, no sign and no [0x]. *)
Lemma parseInt_string_of_uint (u : uint) :
  u <> Nil ->
  parseInt_string (NilEmpty.string_of_uint u) = round_int (uint_value u 0).
Proof.
  intros Hu. pose proof (digits_string_of_uint_start u Hu) as Hd.
  destruct u as [|l|l|l|l|l|l|l|l|l|l]; [congruence | ..];
    try (cbn [NilEmpty.string_of_uint] in *; parse_head; rewrite Hd; reflexivity).
  destruct l; cbn [NilEmpty.string_of_uint] in *; parse_head; rewrite Hd;
    reflexivity.
Qed.

Lemma parseInt_minus_string_of_uint (u : uint) :
  u <> Nil ->
  parseInt_string (String "-" (NilEmpty.string_of_uint u))
  = round_int (- uint_value u 0).
Proof.
  intros Hu. pose proof (digits_string_of_uint_start u Hu) as Hd.
  destruct u as [|l|l|l|l|l|l|l|l|l|l]; [congruence | ..];
    try (cbn [NilEmpty.string_of_uint] in *; parse_head; rewrite Hd; reflexivity).
  destruct l; cbn [NilEmpty.string_of_uint] in *; parse_head; rewrite Hd;
    reflexivity.
Qed.

Lemma string_of_uint_to_uint (p : positive) :
  NilZero.string_of_uint (Pos.to_uint p) = NilEmpty.string_of_uint (Pos.to_uint p).
Proof.
  pose proof (DecimalPos.Unsigned.to_uint_nonnil p).
  destruct (Pos.to_uint p); [congruence | reflexivity ..].
Qed.

(** The decimal numeral of an integer reads back as the double nearest
    to it. *)
Lemma parseInt_string_of_Z (z : Z) : parseInt_string (string_of_Z z) = round_int z.
Proof.
  destruct z as [|p|p]; [reflexivity | ..];
    unfold string_of_Z, Z.to_int, NilZero.string_of_int;
    rewrite string_of_uint_to_uint.
  - rewrite parseInt_string_of_uint by apply DecimalPos.Unsigned.to_uint_nonnil.
    rewrite to_uint_value. reflexivity.
  - rewrite parseInt_minus_string_of_uint by apply DecimalPos.Unsigned.to_uint_nonnil.
    rewrite to_uint_value. reflexivity.
Qed.

Lemma string_of_Z_nonempty (z : Z) : String.eqb (string_of_Z z) "" = false.
Proof.
  destruct z as [|p|p]; [reflexivity | ..];
    unfold string_of_Z, Z.to_int, NilZero.string_of_int.
  - pose proof (DecimalPos.Unsigned.to_uint_nonnil p).
    destruct (Pos.to_uint p); [congruence | reflexivity ..].
  - reflexivity.
Qed.

(** Printing a safe integer and parsing it back loses nothing. *)
Lemma parseInt_number (z : Z) :
  isSafeInteger z -> parseInt (JNum (Int z)) = Int z.
Proof.
  intros Hz. unfold parseInt. cbn [toString].
  rewrite string_of_number_safe, parseInt_string_of_Z by done.
  apply round_int_safe, Hz.
Qed.

End Numerals.

Example parseInt_examples :
  parseInt (JStr "  -0x1F rest") = Int (-31)
  /\ parseInt (JStr "12px") = Int 12
  /\ parseInt (JStr "abc") = NaN
  /\ parseInt (JStr "") = NaN
  /\ parseInt (JNum (Int (-42))) = Int (-42)
  /\ toString (JNum (Int 1000000)) = "1000000".
Proof. repeat split. Qed.

(* ================================================================== *)
(** ** Properties of the credential store *)
(* ================================================================== *)

#[global] Instance MemStorage_lawful : LawfulStorage (gmap string JsVal).
Proof.
  split; intros; unfold getItem, setItem, removeItem, MemStorage;
    simplify_map_eq; reflexivity.
Qed.

#[global] Instance LocalStorage_lawful : LawfulStorage (gmap string string).
Proof.
  split; intros; unfold getItem, setItem, removeItem, LocalStorage;
    simplify_map_eq; reflexivity.
Qed.

Lemma defaultKeys_distinct : KeysDistinct defaultKeys.
Proof.
  apply (bool_decide_unpack _). vm_compute. exact I.
Qed.

Lemma stringOrUndefined_falsy v : truthy v = false -> stringOrUndefined v = JUndefined.
Proof. unfold stringOrUndefined. intros ->. reflexivity. Qed.

Lemma stringOrUndefined_truthy v : truthy v = true -> stringOrUndefined v = v.
Proof. unfold stringOrUndefined. intros ->. reflexivity. Qed.

Lemma parseIntOrUndefined_falsy v : truthy v = false -> parseIntOrUndefined v = None.
Proof. unfold parseIntOrUndefined. intros ->. reflexivity. Qed.

Lemma truthy_JStr s : s <> "" -> truthy (JStr s) = true.
Proof.
  intros Hs. simpl. destruct (String.eqb_spec s ""); [congruence | reflexivity].
Qed.

Section StoreLaws.
Context {S : Type} `{LawfulStorage S}.
Variable keys : Keys.

Lemma retrieve_store_string key (s : string) (st : S) :
  s <> "" -> stringOrUndefined (getItem key (setItem key (JStr s) st)) = JStr s.
Proof.
  intros Hs. rewrite getItem_setItem_str.
  apply stringOrUndefined_truthy, truthy_JStr, Hs.
Qed.

Lemma retrieve_remove_string key (st : S) :
  stringOrUndefined (getItem key (removeItem key st)) = JUndefined.
Proof. apply stringOrUndefined_falsy, getItem_removeItem_eq. Qed.

Lemma retrieve_remove_number key (st : S) :
  parseIntOrUndefined (getItem key (removeItem key st)) = None.
Proof. apply parseIntOrUndefined_falsy, getItem_removeItem_eq. Qed.

(** Removing other keys does not bring a key back. *)
Lemma truthy_getItem_removeItem key key' (st : S) :
  truthy (getItem key st) = false ->
  truthy (getItem key (removeItem key' st)) = false.
Proof.
  intros Hk. destruct (decide (key' = key)) as [->|Hne].
  - apply getItem_removeItem_eq.
  - rewrite getItem_removeItem_ne by done. exact Hk.
Qed.

End StoreLaws.

(** C9, counterexample: an empty string that is stored is retrieved as
    absent, and a stored expiry that does not parse is retrieved as [NaN],
    which is not the absent marker. *)
Lemma authStorage_round_trip_counterexample :
  AuthStorage.retrieveLoginLocation defaultKeys
    (AuthStorage.storeLoginLocation defaultKeys (JStr "") (∅ : gmap string string))
  = JUndefined
  /\ AuthStorage.retrieveExpiresAt defaultKeys
       (setItem "expires_at" (JStr "soon") (∅ : gmap string string))
     = Some NaN.
Proof. split; reflexivity. Qed.

(** C9, amended: on the string-only medium, for each of [userId],
    [accessToken] and [loginLocation], storing a non-empty string and
    retrieving the field returns that string (the empty string is
    retrieved as absent); removing any of the four fields, or the nonce,
    and retrieving it returns the absent marker; [expiresAt] and [nonce]
    round-trip every JavaScript-safe integer; and a stored value that does
    not parse is retrieved without an error, as [NaN] when it is not
    empty and as absent when it is. *)
Theorem authStorage_round_trip (keys : Keys) (st : gmap string string) :
  (forall v : string, v <> "" ->
     AuthStorage.retrieveUserId keys (AuthStorage.storeUserId keys (JStr v) st) = JStr v
     /\ AuthStorage.retrieveAccessToken keys
          (AuthStorage.storeAccessToken keys (JStr v) st) = JStr v
     /\ AuthStorage.retrieveLoginLocation keys
          (AuthStorage.storeLoginLocation keys (JStr v) st) = JStr v)
  /\ (AuthStorage.retrieveUserId keys (AuthStorage.removeUserId keys st) = JUndefined
      /\ AuthStorage.retrieveAccessToken keys (AuthStorage.removeAccessToken keys st)
         = JUndefined
      /\ AuthStorage.retrieveLoginLocation keys (AuthStorage.removeLoginLocation keys st)
         = JUndefined
      /\ AuthStorage.retrieveExpiresAt keys (AuthStorage.removeExpiresAt keys st) = None
      /\ AuthStorage.retrieveNonce keys (AuthStorage.removeNonce keys st) = None)
  /\ (forall z : Z, isSafeInteger z ->
        AuthStorage.retrieveExpiresAt keys (AuthStorage.storeExpiresAt keys (Int z) st)
        = Some (Int z)
        /\ AuthStorage.retrieveNonce keys (AuthStorage.storeNonce keys (Int z) st)
           = Some (Int z))
  /\ (forall s : string, parseInt_string s = NaN ->
        AuthStorage.retrieveExpiresAt keys (setItem (EXPIRES_AT keys) (JStr s) st)
        = (if String.eqb s "" then None else Some NaN)
        /\ AuthStorage.retrieveNonce keys (setItem (NONCE keys) (JStr s) st)
           = (if String.eqb s "" then None else Some NaN)).
Proof.
  repeat split.
  - apply (retrieve_store_string (S := gmap string string)); done.
  - apply (retrieve_store_string (S := gmap string string)); done.
  - apply (retrieve_store_string (S := gmap string string)); done.
  - apply (retrieve_remove_string (S := gmap string string)).
  - apply (retrieve_remove_string (S := gmap string string)).
  - apply (retrieve_remove_string (S := gmap string string)).
  - apply (retrieve_remove_number (S := gmap string string)).
  - apply (retrieve_remove_number (S := gmap string string)).
  - unfold AuthStorage.retrieveExpiresAt, AuthStorage.storeExpiresAt,
      parseIntOrUndefined, getItem, setItem, LocalStorage.
    rewrite lookup_insert_eq. cbn [toString].
    rewrite string_of_number_safe by assumption. cbn [truthy].
    rewrite string_of_Z_nonempty. cbn [negb]. unfold parseInt. cbn [toString].
    rewrite parseInt_string_of_Z, round_int_safe by assumption. reflexivity.
  - unfold AuthStorage.retrieveNonce, AuthStorage.storeNonce,
      parseIntOrUndefined, getItem, setItem, LocalStorage.
    rewrite lookup_insert_eq. cbn [toString].
    rewrite string_of_number_safe by assumption. cbn [truthy].
    rewrite string_of_Z_nonempty. cbn [negb]. unfold parseInt. cbn [toString].
    rewrite parseInt_string_of_Z, round_int_safe by assumption. reflexivity.
  - unfold AuthStorage.retrieveExpiresAt, parseIntOrUndefined, getItem, setItem,
      LocalStorage.
    rewrite lookup_insert_eq. simpl. destruct (String.eqb s ""); simpl; [done|].
    unfold parseInt. simpl. congruence.
  - unfold AuthStorage.retrieveNonce, parseIntOrUndefined, getItem, setItem,
      LocalStorage.
    rewrite lookup_insert_eq. simpl. destruct (String.eqb s ""); simpl; [done|].
    unfold parseInt. simpl. congruence.
Qed.

Lemma authStorage_round_trip_witness :
  ("/page" : string) <> ""
  /\ isSafeInteger 9007199254740991
  /\ parseInt_string "soon" = NaN
  /\ AuthStorage.retrieveLoginLocation defaultKeys
       (AuthStorage.storeLoginLocation defaultKeys (JStr "/page") ∅)
     = JStr "/page"
  /\ AuthStorage.retrieveExpiresAt defaultKeys
       (AuthStorage.storeExpiresAt defaultKeys (Int 9007199254740991) ∅)
     = Some (Int 9007199254740991)
  /\ AuthStorage.retrieveExpiresAt defaultKeys
       (setItem (EXPIRES_AT defaultKeys) (JStr "soon") ∅)
     = Some NaN.
Proof.
  assert (Hpage : ("/page" : string) <> "") by discriminate.
  assert (Hsafe : isSafeInteger 9007199254740991)
    by (unfold isSafeInteger, MAX_SAFE_INTEGER; lia).
  assert (Hsoon : parseInt_string "soon" = NaN) by reflexivity.
  pose proof (authStorage_round_trip defaultKeys ∅) as (Hstr & _ & Hnum & Hnan).
  split; [exact Hpage|]. split; [exact Hsafe|]. split; [exact Hsoon|].
  split; [exact (proj2 (proj2 (Hstr "/page" Hpage)))|].
  split; [exact (proj1 (Hnum 9007199254740991 Hsafe))|].
  exact (proj1 (Hnan "soon" Hsoon)).
Defined.

(** X18: on [MemStorage], which keeps numbers as numbers, a safe
    integer that is stored as the expiry, under a key that is not a
    property of [Object.prototype], is read back; except [0], which is
    falsy and reads as absent. *)
Lemma memStorage_expiresAt_round_trip (keys : Keys) (st : gmap string JsVal) (z : Z) :
  isSafeInteger z ->
  EXPIRES_AT keys ∉ objectPrototypeKeys ->
  AuthStorage.retrieveExpiresAt keys (AuthStorage.storeExpiresAt keys (Int z) st)
  = if z =? 0 then None else Some (Int z).
Proof.
  intros Hz _.
  unfold AuthStorage.retrieveExpiresAt, AuthStorage.storeExpiresAt,
    parseIntOrUndefined, getItem, setItem, MemStorage.
  rewrite lookup_insert_eq. cbn [default from_option id truthy].
  destruct (z =? 0); cbn [negb]; [reflexivity|].
  f_equal. apply parseInt_number, Hz.
Qed.

Lemma memStorage_expiresAt_round_trip_witness :
  isSafeInteger 1700007200000
  /\ (EXPIRES_AT defaultKeys ∉ objectPrototypeKeys)
  /\ AuthStorage.retrieveExpiresAt defaultKeys
       (AuthStorage.storeExpiresAt defaultKeys (Int 1700007200000)
          (∅ : gmap string JsVal))
     = Some (Int 1700007200000).
Proof.
  assert (Hz : isSafeInteger 1700007200000)
    by (unfold isSafeInteger, MAX_SAFE_INTEGER; lia).
  assert (Hk : EXPIRES_AT defaultKeys ∉ objectPrototypeKeys)
    by (apply (bool_decide_unpack _); vm_compute; exact I).
  split; [exact Hz|]. split; [exact Hk|].
  exact (memStorage_expiresAt_round_trip defaultKeys ∅ 1700007200000 Hz Hk).
Defined.

(* ================================================================== *)
(** ** Properties of the session authenticator *)
(* ================================================================== *)

(** Unfolds one operation of the authenticator into its effect on the
    fields of the world. *)
Ltac refold_world :=
  repeat match goal with
    | w : World _ |- _ =>
        progress (fold (storage w) (clock w) (reauthTimeoutId w) (timers w)
                       (nextTimer w) (promises w) (awaiting w) (events w))
    end.

Ltac run_effects :=
  lazy beta iota zeta delta
    [bind ret when readStorage onStorage Date_now emit newPromise
     resolve reject settlePromise clearTimeout setTimeout
     set_reauthTimeoutId expectReply
     fst snd storage clock reauthTimeoutId timers nextTimer promises
     awaiting events];
  refold_world;
  cbn [negb andb orb truthy default from_option id of_opt].

Lemma lookup_fresh_promise (ps : list Promise) (outcome : Promise) :
  alter (settle outcome) (length ps) (ps ++ [Pending]) !! length ps = Some outcome.
Proof.
  rewrite list_lookup_alter_eq, lookup_app_r, Nat.sub_diag by lia. reflexivity.
Qed.

(** A promise is settled once: a second [resolve] changes nothing. *)
Lemma settle_settled (first second : Promise) (ps : list Promise) (pid : nat) :
  first <> Pending ->
  ps !! pid = Some first ->
  alter (settle second) pid ps = ps.
Proof.
  intros Hf Hp. apply list_eq. intros i.
  destruct (decide (i = pid)) as [->|Hne].
  - rewrite list_lookup_alter_eq, Hp. destruct first; [done | reflexivity ..].
  - rewrite list_lookup_alter_ne by done. reflexivity.
Qed.

Lemma alter_fresh_promise (ps : list Promise) (outcome : Promise) :
  alter (settle outcome) (length ps) (ps ++ [Pending]) = ps ++ [outcome].
Proof.
  replace (length ps) with (length ps + 0)%nat at 1 by lia.
  rewrite alter_app_r. reflexivity.
Qed.

Lemma settle_again (ps : list Promise) (first second : Promise) :
  first <> Pending ->
  alter (settle second) (length ps) (ps ++ [first]) = ps ++ [first].
Proof.
  intros Hf. apply (settle_settled first); [exact Hf|].
  apply list_lookup_middle. reflexivity.
Qed.

Lemma extractAuthData_Ok_truthy now parsed d :
  extractAuthData now parsed = Ok d -> truthy parsed = true.
Proof.
  intros Hd. apply extractAuthData_Ok_inv in Hd
    as (p & a & e & payload & token & z & Hdes & -> & _).
  destruct parsed; try reflexivity; discriminate.
Qed.

Section AuthenticatorFacts.
Context {S : Type} `{Storage S}.
Variable keys : Keys.
Variable options : Options.

(** C5: when the provider hands parsed data whose extraction fails,
    [handleLoginSuccess] rejects its promise with the extraction error and
    leaves the storage exactly as it was: no field is written or
    removed (and no timer is touched). *)
Theorem handleLoginSuccess_extraction_failure
  (w : World S) (error parsed : JsVal) (e : Exn) :
  truthy parsed = true ->
  extractAuthData (clock w) parsed = Throw e ->
  let '(pid, w') := handleLoginSuccess keys options error parsed w in
  promises w' !! pid = Some (Rejected e)
  /\ storage w' = storage w
  /\ timers w' = timers w.
Proof.
  intros Hparsed He. unfold handleLoginSuccess. run_effects.
  rewrite Hparsed. run_effects. rewrite He. run_effects.
  split; [apply lookup_fresh_promise | split; reflexivity].
Qed.

(** C6: when the provider hands valid parsed data, [handleLoginSuccess]
    reads the stored [loginLocation], removes it, stores the extracted
    [userId], [accessToken] and [expiresAt], and resolves with
    [{ userId, accessToken, expiresAt, redirectTo }] where [redirectTo] is
    the location that was read.  On a lawful medium with distinct keys
    the location is gone after the call and the three fields are there:
    the user id and the expiry with the string form of what was
    extracted, so that an expiry that is a safe integer reads back as
    that integer. *)
Theorem handleLoginSuccess_valid
  (w : World S) (error parsed : JsVal) (d : AuthData) :
  extractAuthData (clock w) parsed = Ok d ->
  let '(pid, w') := handleLoginSuccess keys options error parsed w in
  let redirectTo := AuthStorage.retrieveLoginLocation keys (storage w) in
  storage w'
  = AuthStorage.storeExpiresAt keys (ad_expiresAt d)
      (AuthStorage.storeAccessToken keys (JStr (ad_accessToken d))
         (AuthStorage.storeUserId keys (ad_userId d)
            (AuthStorage.removeLoginLocation keys (storage w))))
  /\ promises w' !! pid
     = Some (Resolved (mkAuthResult (ad_userId d) (JStr (ad_accessToken d))
                                    (JNum (ad_expiresAt d)) redirectTo))
  /\ (LawfulStorage S -> KeysDistinct keys ->
      AuthStorage.retrieveLoginLocation keys (storage w') = JUndefined
      /\ toString (getItem (USER_ID keys) (storage w')) = toString (ad_userId d)
      /\ getItem (ACCESS_TOKEN keys) (storage w') = JStr (ad_accessToken d)
      /\ toString (getItem (EXPIRES_AT keys) (storage w'))
         = toString (JNum (ad_expiresAt d))
      /\ forall z, ad_expiresAt d = Int z -> isSafeInteger z ->
           parseInt (getItem (EXPIRES_AT keys) (storage w')) = Int z).
Proof.
  intros Hd. pose proof (extractAuthData_Ok_truthy _ _ _ Hd) as Hparsed.
  unfold handleLoginSuccess, setReauthenticationTimeout. run_effects.
  rewrite Hparsed. run_effects. rewrite Hd. run_effects.
  split; [reflexivity|]. split; [apply lookup_fresh_promise|].
  intros Hlaw Hkeys.
  unfold KeysDistinct in Hkeys.
  rewrite !NoDup_cons, !elem_of_cons, !elem_of_nil in Hkeys.
  destruct Hkeys as (HL & HU & HA & _).
  unfold AuthStorage.retrieveLoginLocation, AuthStorage.storeExpiresAt,
    AuthStorage.storeAccessToken, AuthStorage.storeUserId,
    AuthStorage.removeLoginLocation.
  split; [|split; [|split; [|split]]].
  - rewrite !getItem_setItem_ne by (intros Heq; apply HL; rewrite Heq; tauto).
    apply retrieve_remove_string.
  - rewrite !getItem_setItem_ne by (intros Heq; apply HU; rewrite Heq; tauto).
    apply getItem_setItem_toString.
  - rewrite getItem_setItem_ne by (intros Heq; apply HA; rewrite Heq; tauto).
    apply getItem_setItem_str.
  - apply getItem_setItem_toString.
  - intros z Hz Hsafe. unfold parseInt. rewrite getItem_setItem_toString, Hz.
    apply parseInt_number, Hsafe.
Qed.

End AuthenticatorFacts.

Lemma extractExpirationData_expired (now e : Z) (leeway : option number) :
  e < now -> extractExpirationData now (Some (Int e)) leeway = (false, None).
Proof.
  intros He. unfold extractExpirationData. simpl.
  destruct (e =? 0); simpl; [reflexivity|].
  destruct (Z.ltb_spec (e - now) 0); [reflexivity | lia].
Qed.

Section AuthenticateFacts.
Context {S : Type} `{Storage S}.
Variable keys : Keys.
Variable options : Options.

(** What the code does with no [currentLocation] on a storage that holds
    an access token whose stored [expiresAt] is in the past: no branch
    takes the case, the executor reaches the [resolve] written for a
    fresh credential and hands out the stored [userId], the stale
    [accessToken] and the stale [expiresAt].  The storage is left as it
    was. *)
Lemma authenticate_expired_unenforced (w : World S) (state : string) (e : Z) :
  truthy (AuthStorage.retrieveAccessToken keys (storage w)) = true ->
  AuthStorage.retrieveExpiresAt keys (storage w) = Some (Int e) ->
  e < clock w ->
  let '(pid, w') := authenticate keys options JUndefined state w in
  promises w' !! pid
  = Some (Resolved (mkAuthResult
                      (AuthStorage.retrieveUserId keys (storage w))
                      (AuthStorage.retrieveAccessToken keys (storage w))
                      (JNum (Int e)) JUndefined))
  /\ storage w' = storage w.
Proof.
  intros Htoken Hexp Hpast.
  unfold authenticate, setReauthenticationTimeout. run_effects.
  rewrite Htoken. run_effects. rewrite Hexp.
  rewrite extractExpirationData_expired by done. run_effects.
  split; [apply lookup_fresh_promise | reflexivity].
Qed.

(** The answer of the provider to [checkSession] when it reports no
    error and its response fails extraction: the failure handler is
    called, and nothing else happens.  The storage keeps the old
    credential and the promise of [authenticate] is never settled. *)
Lemma checkSessionReply_unextractable
  (w : World S) (pid : nat) (error result : JsVal) (e : Exn) :
  truthy error = false ->
  extractAuthData (clock w) result = Throw e ->
  checkSessionReply keys options pid error result w
  = handleReauthenticationFailure options e w.
Proof.
  intros Herr He. unfold checkSessionReply, reauthenticateCallback. run_effects.
  rewrite Herr. rewrite He.
  unfold reauthenticateHandlers, handleReauthenticationFailure.
  run_effects. destruct (onReauthenticationFailure options); reflexivity.
Qed.

Lemma handleReauthenticationFailure_world (w : World S) (e : Exn) :
  let w' := snd (handleReauthenticationFailure options e w) in
  storage w' = storage w /\ promises w' = promises w /\ timers w' = timers w.
Proof.
  unfold handleReauthenticationFailure. run_effects.
  destruct (onReauthenticationFailure options); repeat split.
Qed.

End AuthenticateFacts.

Section LawfulAuthenticateFacts.
Context {S : Type} `{LawfulStorage S}.
Variable keys : Keys.
Variable options : Options.

(** The answer of the provider to [checkSession] when it reports an
    error: the three session fields are cleared, the failure handler is
    called with the error, and the promise resolves with [{}]. *)
Lemma checkSessionReply_provider_error
  (w : World S) (pid : nat) (error result : JsVal) :
  truthy error = true ->
  promises w !! pid = Some Pending ->
  let w' := snd (checkSessionReply keys options pid error result w) in
  AuthStorage.retrieveUserId keys (storage w') = JUndefined
  /\ AuthStorage.retrieveAccessToken keys (storage w') = JUndefined
  /\ AuthStorage.retrieveExpiresAt keys (storage w') = None
  /\ promises w' !! pid = Some (Resolved emptyResult)
  /\ timers w' = timers w.
Proof.
  intros Herr Hp. unfold checkSessionReply, reauthenticateCallback. run_effects.
  rewrite Herr.
  assert (Hclear : forall st : S,
    truthy (getItem (USER_ID keys)
      (AuthStorage.removeExpiresAt keys
         (AuthStorage.removeAccessToken keys (AuthStorage.removeUserId keys st))))
    = false
    /\ truthy (getItem (ACCESS_TOKEN keys)
      (AuthStorage.removeExpiresAt keys
         (AuthStorage.removeAccessToken keys (AuthStorage.removeUserId keys st))))
    = false
    /\ truthy (getItem (EXPIRES_AT keys)
      (AuthStorage.removeExpiresAt keys
         (AuthStorage.removeAccessToken keys (AuthStorage.removeUserId keys st))))
    = false).
  { intros st. unfold AuthStorage.removeExpiresAt, AuthStorage.removeAccessToken,
      AuthStorage.removeUserId. repeat split.
    - do 2 apply truthy_getItem_removeItem. apply getItem_removeItem_eq.
    - apply truthy_getItem_removeItem. apply getItem_removeItem_eq.
    - apply getItem_removeItem_eq. }
  unfold AuthStorage.retrieveUserId, AuthStorage.retrieveAccessToken,
    AuthStorage.retrieveExpiresAt.
  destruct (extractAuthData (clock w) result) as [d|e];
    unfold reauthenticateHandlers, handleReauthenticationFailure; run_effects;
    destruct (onReauthenticationFailure options); run_effects;
    destruct (Hclear (storage w)) as (HU & HA & HE);
    (split; [apply stringOrUndefined_falsy, HU|]);
    (split; [apply stringOrUndefined_falsy, HA|]);
    (split; [apply parseIntOrUndefined_falsy, HE|]);
    (split; [|reflexivity]);
    rewrite list_lookup_alter_eq, Hp; reflexivity.
Qed.

(** C10, amended: a call of [authenticate] on a storage that holds
    neither an access token nor an expiry resolves with the empty
    snapshot, and the executor runs on: the evaluator sees the absent
    expiry, and the renewal timer is armed, after the prior one is
    cancelled, with the delay [NaN] computed from the absent [expiresAt].
    This happens with and without a [currentLocation]; with one, the
    provider's [authorize] is called twice. *)
Theorem authenticate_no_token_falls_through
  (w : World S) (currentLocation : JsVal) (state : string) :
  LOGIN_LOCATION keys <> EXPIRES_AT keys ->
  AuthStorage.retrieveAccessToken keys (storage w) = JUndefined ->
  AuthStorage.retrieveExpiresAt keys (storage w) = None ->
  let '(pid, w') := authenticate keys options currentLocation state w in
  promises w' !! pid = Some (Resolved emptyResult)
  /\ timers w'
     = filter (fun t => Some (fst t) <> reauthTimeoutId w) (timers w)
       ++ [(nextTimer w, NaN)]
  /\ reauthTimeoutId w' = Some (nextTimer w)
  /\ events w'
     = events w
       ++ (if truthy currentLocation
           then [Authorize (authorizeOptions state);
                 Authorize (authorizeOptions state)]
           else [])
       ++ [ClearTimeout (reauthTimeoutId w); SetTimeout (nextTimer w) NaN].
Proof.
  intros Hkeys Htoken Hexp.
  unfold authenticate, setReauthenticationTimeout. run_effects.
  rewrite Htoken. run_effects.
  destruct (truthy currentLocation) eqn:Hloc; run_effects.
  - assert (Hexp' : AuthStorage.retrieveExpiresAt keys
              (AuthStorage.storeLoginLocation keys currentLocation (storage w))
            = None).
    { unfold AuthStorage.retrieveExpiresAt, AuthStorage.storeLoginLocation in *.
      rewrite getItem_setItem_ne by done. exact Hexp. }
    rewrite Hexp'. cbn [extractExpirationData of_opt truthy negb].
    run_effects. rewrite ?Hloc. run_effects.
    rewrite alter_fresh_promise, !settle_again by discriminate.
    split; [|split; [|split]].
    + apply list_lookup_middle. reflexivity.
    + reflexivity.
    + reflexivity.
    + rewrite <- !app_assoc. reflexivity.
  - rewrite Hexp. cbn [extractExpirationData of_opt truthy negb].
    run_effects. rewrite ?Hloc. run_effects.
    rewrite alter_fresh_promise, !settle_again by discriminate.
    split; [|split; [|split]].
    + apply list_lookup_middle. reflexivity.
    + reflexivity.
    + reflexivity.
    + rewrite <- !app_assoc. reflexivity.
Qed.

End LawfulAuthenticateFacts.

(* ================================================================== *)
(** ** The renewal timer *)
(* ================================================================== *)

Lemma armings_app (es es' : list Event) :
  armings (es ++ es') = (armings es + armings es')%nat.
Proof. unfold armings. rewrite List.filter_app, length_app. reflexivity. Qed.

Ltac count_armings :=
  rewrite ?armings_app; cbn [armings List.filter is_arming length]; lia.

Ltac timer_kept :=
  left; unfold keeps_timer;
  cbn [timers reauthTimeoutId events nextTimer clock];
  split; [reflexivity | split; [reflexivity | split; [count_armings | reflexivity]]].

Ltac timer_rearmed :=
  right; unfold rearms_timer;
  cbn [timers reauthTimeoutId events nextTimer clock];
  eexists;
  split; [reflexivity | split; [reflexivity | split; [count_armings | reflexivity]]].

Ltac timer_cases := first [timer_kept | timer_rearmed].

Section TimerFacts.
Context {S : Type} `{Storage S}.
Variable keys : Keys.
Variable options : Options.
Variable logoutRedirectUrl : string.

Lemma promptLogin_timer (w : World S) loc opts :
  keeps_timer w (snd (promptLogin keys loc opts w)).
Proof.
  unfold promptLogin. run_effects. unfold keeps_timer.
  cbn [timers reauthTimeoutId events clock]. repeat split. count_armings.
Qed.

Lemma logout_timer (w : World S) :
  keeps_timer w (snd (logout keys logoutRedirectUrl w)).
Proof.
  unfold logout. run_effects. unfold keeps_timer.
  cbn [timers reauthTimeoutId events clock]. repeat split. count_armings.
Qed.

Lemma handleLoginSuccess_timer (w : World S) error parsed :
  let w' := snd (handleLoginSuccess keys options error parsed w) in
  keeps_timer w w' \/ rearms_timer w w'.
Proof.
  unfold handleLoginSuccess, setReauthenticationTimeout. run_effects.
  destruct (truthy parsed); run_effects;
    [destruct (extractAuthData (clock w) parsed) | destruct (truthy error)];
    run_effects; timer_cases.
Qed.

Lemma authenticate_timer (w : World S) loc state :
  let w' := snd (authenticate keys options loc state w) in
  keeps_timer w w' \/ rearms_timer w w'.
Proof.
  unfold authenticate, setReauthenticationTimeout. run_effects.
  destruct (truthy (AuthStorage.retrieveAccessToken keys (storage w)));
    run_effects; destruct (truthy loc); run_effects;
    match goal with
    | |- context [extractExpirationData ?n ?e ?l] =>
        destruct (extractExpirationData n e l) as [[|] [[|]|]]
    end; run_effects; timer_cases.
Qed.

Lemma checkSessionReply_timer (w : World S) pid error result :
  let w' := snd (checkSessionReply keys options pid error result w) in
  keeps_timer w w' \/ rearms_timer w w'.
Proof.
  unfold checkSessionReply, reauthenticateCallback, reauthenticateHandlers,
    setReauthenticationTimeout, handleReauthenticationFailure,
    handleReauthenticationSuccess.
  run_effects.
  destruct (truthy error); (destruct (extractAuthData (clock w) result) as [d|e]);
    run_effects;
    repeat (match goal with
            | |- context [if ?b then _ else _] => destruct b
            end; run_effects);
    timer_cases.
Qed.


Lemma timer_step_clock (w w' : World S) :
  keeps_timer w w' \/ rearms_timer w w' -> clock w' = clock w.
Proof. intros [(_ & _ & _ & Hc) | (delay & _ & _ & _ & Hc)]; exact Hc. Qed.





Lemma run_clock (op : Op) (w w' : World S) :
  run keys options logoutRedirectUrl op w = Some w' -> clock w <= clock w'.
Proof.
  assert (Hstep : forall w1 w2 : World S,
            keeps_timer w1 w2 \/ rearms_timer w1 w2 -> clock w1 <= clock w2).
  { intros w1 w2 Hs. rewrite (timer_step_clock _ _ Hs). lia. }
  destruct op; cbn [run].
  - intros [= <-]. apply Hstep. left. apply promptLogin_timer.
  - intros [= <-]. apply Hstep, handleLoginSuccess_timer.
  - intros [= <-]. apply Hstep, authenticate_timer.
  - case_bool_decide; [|discriminate]. intros [= <-].
    apply (Hstep (answered pid w)), checkSessionReply_timer.
  - intros [= <-]. apply Hstep. left. apply logout_timer.
  - case_bool_decide; [|discriminate]. intros [= <-].
    apply (Hstep (fired id w)), authenticate_timer.
  - destruct (Z.leb_spec 0 dt); [|discriminate]. intros [= <-].
    cbn [ticked clock]. lia.
Qed.

(** The clock of the page is past the epoch. *)
Lemma reachable_clock (w : World S) :
  reachable keys options logoutRedirectUrl w -> 0 < clock w.
Proof.
  induction 1 as [st now Hnow | op w w' _ IH Hrun].
  - exact Hnow.
  - apply run_clock in Hrun. lia.
Qed.


End TimerFacts.

Section RenewalTimer.
Context {S : Type} `{Storage S}.
Variable keys : Keys.
Variable options : Options.
Variable logoutRedirectUrl : string.









End RenewalTimer.

(* ================================================================== *)
(** ** The scenarios, run *)
(* ================================================================== *)

(** C1, at the failing input: the stored credential is fresh and due for
    renewal, [checkSession] reports no error and a response without an
    access token.  The failure handler is called once, and that is all:
    the three session fields are still in the storage, the promise that
    [authenticate] returned is still pending, and no timer is armed. *)
Theorem renewal_unextractable_response_hangs :
  let call := authenticate defaultKeys hostOptions JUndefined "s" renewalDueWorld in
  let pid := fst call in
  let w1 := snd call in
  let w2 :=
    snd (checkSessionReply defaultKeys hostOptions pid JUndefined
                           tokenlessResponse w1) in
  awaiting w1 = [pid]
  /\ storage w2 = storage renewalDueWorld
  /\ AuthStorage.retrieveAccessToken defaultKeys (storage w2) = JStr "t"
  /\ promises w2 !! pid = Some Pending
  /\ timers w2 = []
  /\ events w2
     = [CheckSession [("responseType", JStr responseType)];
        OnReauthenticationFailure
          (Error "expected accessToken to be a string, got undefined")].
Proof. intros call pid w1 w2. repeat (split; [reflexivity|]). reflexivity. Qed.

(** The sibling path: when [checkSession] reports an error (and, as the
    provider does then, no response), the session fields are cleared and
    the promise resolves with [{}]; the failure handler is called twice,
    first with the TypeError of the extraction of [undefined]. *)
Example renewal_provider_error_clears :
  let call := authenticate defaultKeys hostOptions JUndefined "s" renewalDueWorld in
  let pid := fst call in
  let w2 :=
    snd (checkSessionReply defaultKeys hostOptions pid (JStr "login_required")
                           JUndefined (snd call)) in
  storage w2 = ∅
  /\ promises w2 !! pid = Some (Resolved emptyResult)
  /\ events w2
     = [CheckSession [("responseType", JStr responseType)];
        OnReauthenticationFailure TypeError;
        OnReauthenticationFailure (ProviderError (JStr "login_required"))].
Proof. intros call pid w2. repeat (split; [reflexivity|]). reflexivity. Qed.

(** The test 'access token fresh but within reauthentication threshold':
    the new credential is stored and the timer is armed for
    [expiresIn - leeway] from now. *)
Example renewal_success_commits :
  let call := authenticate defaultKeys hostOptions JUndefined "s" renewalDueWorld in
  let pid := fst call in
  let w2 :=
    snd (checkSessionReply defaultKeys hostOptions pid JUndefined validResponse
                           (snd call)) in
  AuthStorage.retrieveAccessToken defaultKeys (storage w2) = JStr "t1"
  /\ AuthStorage.retrieveExpiresAt defaultKeys (storage w2)
     = Some (Int (t0 + 7200000))
  /\ promises w2 !! pid
     = Some (Resolved (mkAuthResult JUndefined (JStr "t1")
                                    (JNum (Int (t0 + 7200000))) JUndefined))
  /\ timers w2 = [(1%nat, Int 6000000)].
Proof. intros call pid w2. repeat (split; [reflexivity|]). reflexivity. Qed.

(** C2, at the failing input: with no [currentLocation] and a stored
    token that expired ten seconds ago, the storage is left unchanged, as
    the claim says, but the promise resolves with the stored user, the
    expired token and its expiry, not with the empty snapshot that the
    sibling paths for a missing or expired credential resolve with; the
    renewal timer is armed with a negative delay, so the same call is
    made again at once. *)
Theorem authenticate_expired_resolves_stale :
  let call := authenticate defaultKeys hostOptions JUndefined "s" expiredWorld in
  promises (snd call) !! fst call
  = Some (Resolved (mkAuthResult (JStr "u") (JStr "t")
                                 (JNum (Int (t0 - 10000))) JUndefined))
  /\ promises (snd call) !! fst call <> Some (Resolved emptyResult)
  /\ storage (snd call) = storage expiredWorld
  /\ timers (snd call) = [(1%nat, Int (-1210000))].
Proof.
  intros call.
  assert (Hp : promises (snd call) !! fst call
               = Some (Resolved (mkAuthResult (JStr "u") (JStr "t")
                                  (JNum (Int (t0 - 10000))) JUndefined)))
    by reflexivity.
  split; [exact Hp|]. rewrite Hp.
  split; [discriminate|]. split; reflexivity.
Qed.

(** The sibling path: with the same storage and a [currentLocation], the
    expired credential is cleared and the promise resolves with [{}]. *)
Example authenticate_expired_enforced :
  let call :=
    authenticate defaultKeys hostOptions (JStr "/page") "s" expiredWorld in
  promises (snd call) !! fst call = Some (Resolved emptyResult)
  /\ AuthStorage.retrieveAccessToken defaultKeys (storage (snd call)) = JUndefined
  /\ AuthStorage.retrieveExpiresAt defaultKeys (storage (snd call)) = None
  /\ AuthStorage.retrieveLoginLocation defaultKeys (storage (snd call))
     = JStr "/page".
Proof. intros call. repeat (split; [reflexivity|]). reflexivity. Qed.

(** C10, counterexample: the storage holds no access token, and an
    expiry with five seconds left.  The evaluator runs on that expiry,
    not on an absent one; [checkSession] is called and no timer is
    armed. *)
Lemma authenticate_no_token_counterexample :
  AuthStorage.retrieveAccessToken defaultKeys (storage orphanExpiryWorld)
  = JUndefined
  /\ (let w' :=
        snd (authenticate defaultKeys hostOptions JUndefined "s"
                          orphanExpiryWorld) in
      timers w' = []
      /\ events w' = [CheckSession [("responseType", JStr responseType)]]).
Proof. repeat (split; [reflexivity|]). reflexivity. Qed.

Lemma authenticate_no_token_falls_through_witness :
  LOGIN_LOCATION defaultKeys <> EXPIRES_AT defaultKeys
  /\ AuthStorage.retrieveAccessToken defaultKeys (storage emptyWorld) = JUndefined
  /\ AuthStorage.retrieveExpiresAt defaultKeys (storage emptyWorld) = None
  /\ (let '(pid, w') :=
        authenticate defaultKeys hostOptions (JStr "/page") "s" emptyWorld in
      promises w' !! pid = Some (Resolved emptyResult)
      /\ timers w' = [(1%nat, NaN)]
      /\ reauthTimeoutId w' = Some 1%nat
      /\ events w'
         = [Authorize (authorizeOptions "s"); Authorize (authorizeOptions "s");
            ClearTimeout None; SetTimeout 1 NaN]).
Proof.
  assert (H1 : LOGIN_LOCATION defaultKeys <> EXPIRES_AT defaultKeys)
    by discriminate.
  assert (H2 : AuthStorage.retrieveAccessToken defaultKeys (storage emptyWorld)
               = JUndefined) by reflexivity.
  assert (H3 : AuthStorage.retrieveExpiresAt defaultKeys (storage emptyWorld)
               = None) by reflexivity.
  split; [exact H1|]. split; [exact H2|]. split; [exact H3|].
  exact (authenticate_no_token_falls_through defaultKeys hostOptions emptyWorld
           (JStr "/page") "s" H1 H2 H3).
Defined.

Lemma handleLoginSuccess_extraction_failure_witness :
  truthy tokenlessResponse = true
  /\ extractAuthData (clock emptyWorld) tokenlessResponse
     = Throw (Error "expected accessToken to be a string, got undefined")
  /\ (let '(pid, w') :=
        handleLoginSuccess defaultKeys hostOptions JUndefined tokenlessResponse
                           emptyWorld in
      promises w' !! pid
      = Some (Rejected (Error "expected accessToken to be a string, got undefined"))
      /\ storage w' = storage emptyWorld
      /\ timers w' = timers emptyWorld).
Proof.
  assert (H1 : truthy tokenlessResponse = true) by reflexivity.
  assert (H2 : extractAuthData (clock emptyWorld) tokenlessResponse
               = Throw (Error "expected accessToken to be a string, got undefined"))
    by reflexivity.
  split; [exact H1|]. split; [exact H2|].
  exact (handleLoginSuccess_extraction_failure defaultKeys hostOptions emptyWorld
           JUndefined tokenlessResponse _ H1 H2).
Defined.

Lemma handleLoginSuccess_valid_witness :
  extractAuthData (clock emptyWorld) validResponse
  = Ok (mkAuthData (JStr "u") "t1" (Int 1700007200000))
  /\ isSafeInteger 1700007200000
  /\ (let '(pid, w') :=
        handleLoginSuccess defaultKeys hostOptions JUndefined validResponse
          (snd (promptLogin defaultKeys (JStr "/page") [] emptyWorld)) in
      promises w' !! pid
      = Some (Resolved (mkAuthResult (JStr "u") (JStr "t1")
                                     (JNum (Int 1700007200000)) (JStr "/page")))
      /\ AuthStorage.retrieveLoginLocation defaultKeys (storage w') = JUndefined
      /\ parseInt (getItem (EXPIRES_AT defaultKeys) (storage w'))
         = Int 1700007200000).
Proof.
  assert (H1 : extractAuthData (clock emptyWorld) validResponse
               = Ok (mkAuthData (JStr "u") "t1" (Int 1700007200000)))
    by reflexivity.
  assert (H2 : isSafeInteger 1700007200000)
    by (unfold isSafeInteger, MAX_SAFE_INTEGER; lia).
  split; [exact H1|]. split; [exact H2|].
  pose proof (handleLoginSuccess_valid defaultKeys hostOptions
                (snd (promptLogin defaultKeys (JStr "/page") [] emptyWorld))
                JUndefined validResponse _ H1) as Hv.
  destruct (handleLoginSuccess defaultKeys hostOptions JUndefined validResponse
              (snd (promptLogin defaultKeys (JStr "/page") [] emptyWorld)))
    as [pid w'].
  destruct Hv as (_ & Hp & Hlaw).
  destruct (Hlaw MemStorage_lawful defaultKeys_distinct) as (Hl & _ & _ & _ & He).
  split; [exact Hp|]. split; [exact Hl|].
  exact (He _ eq_refl H2).
Defined.



(* ================================================================== *)
(** ** Properties of [randomString] *)
(* ================================================================== *)

Section RandomString.
Import Util.

Lemma append_cons (c : ascii) (s1 s2 : string) :
  String c s1 +:+ s2 = String c (s1 +:+ s2).
Proof. reflexivity. Qed.

Lemma append_empty_r (s : string) : s +:+ "" = s.
Proof.
  induction s as [|c s IH]; [reflexivity|]. rewrite append_cons, IH. reflexivity.
Qed.

Lemma append_assoc (s1 s2 s3 : string) : (s1 +:+ s2) +:+ s3 = s1 +:+ (s2 +:+ s3).
Proof.
  induction s1 as [|c s1 IH]; [reflexivity|]. rewrite !append_cons, IH. reflexivity.
Qed.

Lemma length_append (s1 s2 : string) :
  String.length (s1 +:+ s2) = (String.length s1 + String.length s2)%nat.
Proof.
  induction s1 as [|c s1 IH]; [reflexivity|]. rewrite append_cons. simpl.
  rewrite IH. reflexivity.
Qed.

Lemma chars_append (s1 s2 : string) :
  list_ascii_of_string (s1 +:+ s2)
  = list_ascii_of_string s1 ++ list_ascii_of_string s2.
Proof.
  induction s1 as [|c s1 IH]; [reflexivity|]. rewrite append_cons. simpl.
  rewrite IH. reflexivity.
Qed.

Lemma concatChars_app (l1 l2 : list nat) :
  concatChars (l1 ++ l2) = concatChars l1 +:+ concatChars l2.
Proof.
  induction l1 as [|c l1 IH]; simpl; [reflexivity|].
  rewrite IH, append_assoc. reflexivity.
Qed.

(** One pass over a block of bytes: the first [n] bytes that index the
    alphabet are appended, the others are skipped. *)
Lemma forEach_take (random : list nat) (n : nat) (result : string) :
  forEach random (Z.of_nat n) result
  = (Z.of_nat (n - length (List.filter (fun c => (c <? String.length charset)%nat) random)),
     result +:+ concatChars (take n (List.filter (fun c => (c <? String.length charset)%nat) random))).
Proof.
  revert n result. induction random as [|c rest IH]; intros n result.
  - cbn [forEach List.filter length]. rewrite take_nil, Nat.sub_0_r.
    cbn [concatChars]. rewrite append_empty_r. reflexivity.
  - cbn [forEach List.filter]. destruct n as [|m].
    + change (Z.of_nat 0 =? 0) with true. cbv iota.
      rewrite (IH 0%nat). simpl. destruct (c <? String.length charset)%nat; simpl; reflexivity.
    + destruct (Z.eqb_spec (Z.of_nat (Datatypes.S m)) 0) as [Hz|_]; [lia|].
      destruct (c <? String.length charset)%nat eqn:Hc.
      * replace (Z.of_nat (Datatypes.S m) - 1) with (Z.of_nat m) by lia.
        rewrite IH. cbn [length take concatChars].
        rewrite append_assoc. reflexivity.
      * apply IH.
Qed.

Lemma accepted_cons (random : list nat) (supply : list (list nat)) :
  accepted (random :: supply)
  = List.filter (fun c => (c <? String.length charset)%nat) random ++ accepted supply.
Proof. unfold accepted. simpl. apply List.filter_app. Qed.

(** The loop returns as soon as enough bytes index the alphabet, and
    only then. *)
Lemma randomLoop_take (supply : list (list nat)) (n : nat) (result : string) :
  randomLoop supply (Z.of_nat n) result
  = if (n <=? length (accepted supply))%nat
    then Some (result +:+ concatChars (take n (accepted supply)))
    else None.
Proof.
  revert n result. induction supply as [|random rest IH]; intros n result.
  - destruct n as [|m]; simpl; [rewrite append_empty_r|]; reflexivity.
  - cbn [randomLoop]. destruct n as [|m].
    + simpl. rewrite append_empty_r. reflexivity.
    + destruct (Z.ltb_spec 0 (Z.of_nat (Datatypes.S m))) as [_|Hz]; [|lia].
      rewrite forEach_take, IH, accepted_cons, length_app, take_app,
        concatChars_app, append_assoc.
      set (k := length (List.filter (fun c => (c <? String.length charset)%nat) random)).
      destruct (Nat.leb_spec (Datatypes.S m - k) (length (accepted rest)));
        destruct (Nat.leb_spec (Datatypes.S m) (k + length (accepted rest)));
        try lia; reflexivity.
Qed.

Lemma randomLoop_nonpositive (supply : list (list nat)) (len : Z) (result : string) :
  len <= 0 -> randomLoop supply len result = Some result.
Proof.
  intros Hlen. destruct supply; simpl;
    destruct (Z.ltb_spec 0 len); try lia; reflexivity.
Qed.

Lemma randomString_take (supply : list (list nat)) (len : option Z) :
  randomString supply len
  = let n := Z.to_nat (default 16 len) in
    if (n <=? length (accepted supply))%nat
    then Some (concatChars (take n (accepted supply)))
    else None.
Proof.
  unfold randomString. cbv zeta.
  destruct (Z.le_gt_cases (default 16 len) 0) as [Hneg|Hpos].
  - rewrite randomLoop_nonpositive by done.
    replace (Z.to_nat (default 16 len)) with 0%nat by lia. reflexivity.
  - rewrite <- (Z2Nat.id (default 16 len)) at 1 by lia.
    rewrite randomLoop_take. reflexivity.
Qed.

Lemma accepted_ok (supply : list (list nat)) :
  Forall (fun c => (c < String.length charset)%nat) (accepted supply).
Proof.
  unfold accepted. apply List.Forall_forall. intros c Hc.
  apply List.filter_In in Hc as [_ Hc]. apply Nat.ltb_lt, Hc.
Qed.

Lemma get_chars (s : string) (n : nat) (ch : ascii) :
  String.get n s = Some ch -> ch ∈ list_ascii_of_string s.
Proof.
  revert n. induction s as [|c s IH]; intros n; simpl; [discriminate|].
  destruct n as [|m].
  - intros [= ->]. apply list_elem_of_here.
  - intros Hget. apply list_elem_of_further. eapply IH, Hget.
Qed.

Lemma get_in_range (s : string) (n : nat) :
  (n < String.length s)%nat -> exists ch, String.get n s = Some ch.
Proof.
  revert n. induction s as [|c s IH]; intros n; simpl; [lia|].
  destruct n as [|m]; [eauto|]. intros Hn. apply IH. lia.
Qed.

Lemma charAt_ok (c : nat) :
  (c < String.length charset)%nat ->
  exists ch, charAt c = String ch "" /\ ch ∈ list_ascii_of_string charset.
Proof.
  intros Hc. destruct (get_in_range charset c Hc) as [ch Hch].
  exists ch. unfold charAt. rewrite Hch. split; [reflexivity|].
  eapply get_chars, Hch.
Qed.

Lemma concatChars_ok (cs : list nat) :
  Forall (fun c => (c < String.length charset)%nat) cs ->
  String.length (concatChars cs) = length cs
  /\ Forall (fun ch => ch ∈ list_ascii_of_string charset)
            (list_ascii_of_string (concatChars cs)).
Proof.
  induction 1 as [|c cs Hc _ [IHlen IHin]]; simpl; [split; [reflexivity | constructor]|].
  destruct (charAt_ok c Hc) as (ch & -> & Hch).
  rewrite append_cons. change ("" +:+ concatChars cs) with (concatChars cs). simpl.
  split; [rewrite IHlen; reflexivity | constructor; assumption].
Qed.

(** X1: [randomString] returns a string exactly when at least [length]
    of the bytes supplied by [getRandomValues] index the alphabet, and the
    string is then made of the first [length] such bytes, in their order,
    each mapped through [charset]; the bytes from 65 on are skipped.
    A [length] of [0] or less gives the empty string without reading a
    byte. *)
Theorem randomString_characterized (supply : list (list nat)) (len : option Z) :
  let n := Z.to_nat (default 16 len) in
  (randomString supply len
   = if (n <=? length (accepted supply))%nat
     then Some (concatChars (take n (accepted supply)))
     else None)
  /\ (default 16 len <= 0 -> randomString [] len = Some "").
Proof.
  split; [apply randomString_take|].
  intros Hlen. unfold randomString. apply randomLoop_nonpositive, Hlen.
Qed.

(** X2: a string returned by [randomString] has exactly the requested
    number of characters (16 when none is requested). *)
Theorem randomString_length (supply : list (list nat)) (len : option Z) (s : string) :
  randomString supply len = Some s ->
  String.length s = Z.to_nat (default 16 len).
Proof.
  rewrite randomString_take. cbv zeta.
  destruct (Nat.leb_spec (Z.to_nat (default 16 len)) (length (accepted supply)))
    as [Hle|]; [|discriminate].
  intros [= <-].
  destruct (concatChars_ok (take (Z.to_nat (default 16 len)) (accepted supply)))
    as [Hlen _].
  { apply Forall_take, accepted_ok. }
  rewrite Hlen, length_take. lia.
Qed.

(** X3: every character of a string returned by [randomString] is a
    character of [charset]; the letter W, which [charset] lacks, never
    occurs. *)
Theorem randomString_alphabet (supply : list (list nat)) (len : option Z) (s : string) :
  randomString supply len = Some s ->
  Forall (fun ch => ch ∈ list_ascii_of_string charset) (list_ascii_of_string s)
  /\ "W"%char ∉ list_ascii_of_string s.
Proof.
  rewrite randomString_take. cbv zeta.
  destruct (Nat.leb_spec (Z.to_nat (default 16 len)) (length (accepted supply)))
    as [Hle|]; [|discriminate].
  intros [= <-].
  destruct (concatChars_ok (take (Z.to_nat (default 16 len)) (accepted supply)))
    as [_ Hin].
  { apply Forall_take, accepted_ok. }
  split; [exact Hin|].
  intros HW. rewrite Forall_forall in Hin. specialize (Hin _ HW).
  revert Hin. apply (bool_decide_unpack _). vm_compute. exact I.
Qed.

End RandomString.

Lemma randomString_length_witness :
  Util.randomString [[200; 10; 65; 11]; [64; 0; 255; 36]]%nat (Some 4) = Some "AB~0"
  /\ String.length "AB~0" = Z.to_nat (default 16 (Some 4)).
Proof.
  assert (Hs : Util.randomString [[200; 10; 65; 11]; [64; 0; 255; 36]]%nat (Some 4)
               = Some "AB~0") by reflexivity.
  split; [exact Hs|].
  exact (randomString_length _ _ _ Hs).
Defined.

Lemma randomString_alphabet_witness :
  Util.randomString [[200; 10; 65; 11]; [64; 0; 255; 36]]%nat (Some 4) = Some "AB~0"
  /\ "W"%char ∉ list_ascii_of_string "AB~0".
Proof.
  assert (Hs : Util.randomString [[200; 10; 65; 11]; [64; 0; 255; 36]]%nat (Some 4)
               = Some "AB~0") by reflexivity.
  split; [exact Hs|].
  exact (proj2 (randomString_alphabet _ _ _ Hs)).
Defined.

(* ================================================================== *)
(** ** More on the extractor, the evaluator and the leeway *)
(* ================================================================== *)

#[global] Instance MemStorage_truthful : TruthfulStorage (gmap string JsVal).
Proof.
  split. intros key v st Hv. unfold getItem, setItem, MemStorage.
  rewrite lookup_insert_eq. exact Hv.
Qed.

Lemma length_pos_nonempty (s : string) :
  (0 < String.length s)%nat <-> String.eqb s "" = false.
Proof. destruct s; cbn [String.length]; split; intros; first [lia | done]. Qed.

Lemma layout_nonempty (ds : string) (n : Z) :
  String.eqb ds "" = false -> String.eqb (layout ds n) "" = false.
Proof.
  intros Hds. apply length_pos_nonempty in Hds. apply length_pos_nonempty.
  unfold layout.
  repeat match goal with
    | |- context [if ?b then _ else _] => destruct b
    end;
    rewrite ?length_append; cbn [String.length]; lia.
Qed.

Lemma string_of_double_nonempty (m x : Z) :
  String.eqb (string_of_double m x) "" = false.
Proof.
  unfold string_of_double.
  destruct (shortest _ _ _ _) as [s t]. destruct (strip_zeros _ s t) as [s' t'].
  apply layout_nonempty, string_of_Z_nonempty.
Qed.

(** The numeral of a number is never empty. *)
Lemma string_of_number_nonempty (n : number) :
  String.eqb (string_of_number n) "" = false.
Proof.
  assert (Hsigned : forall (b : bool) m x,
    String.eqb ((if b then "-" else "") +:+ string_of_double m x) "" = false).
  { intros b m x. apply length_pos_nonempty. rewrite length_append.
    pose proof (proj2 (length_pos_nonempty _) (string_of_double_nonempty m x)).
    lia. }
  destruct n as [z | h k | [] |]; cbn [string_of_number]; try reflexivity.
  - destruct (Z.log2 (Z.abs z) <? 53); [apply string_of_Z_nonempty|].
    destruct (round_int z) as [r | | [] |]; try reflexivity. apply Hsigned.
  - apply Hsigned.
Qed.

Lemma toString_nonempty (v : JsVal) :
  truthy v = true -> String.eqb (toString v) "" = false.
Proof.
  destruct v as [| |[]|n|s|props]; cbn [truthy toString];
    try discriminate; try reflexivity.
  - intros _. apply string_of_number_nonempty.
  - destruct (String.eqb s ""); [discriminate | reflexivity].
Qed.

#[global] Instance LocalStorage_truthful : TruthfulStorage (gmap string string).
Proof.
  split. intros key v st Hv. unfold getItem, setItem, LocalStorage.
  rewrite lookup_insert_eq. cbn [truthy].
  rewrite toString_nonempty by done. reflexivity.
Qed.

(** The leeway that the authenticator passes on is never [0], nor
    [NaN]. *)
Lemma getReauthenticationLeeway_nonzero (options : Options) :
  getReauthenticationLeeway options <> Int 0
  /\ getReauthenticationLeeway options <> NaN.
Proof.
  unfold getReauthenticationLeeway.
  destruct (reauthenticationLeeway options) as [[s | h k | b |]|];
    cbn [of_opt truthy toNumber].
  - destruct (Z.eqb_spec s 0); cbn [negb num_mul DEFAULT_LEEWAY];
      (split; [intros [= Hz]; lia | discriminate]).
  - rewrite num_mul_Frac_Int. split.
    + intros Hz. apply round53_zero in Hz. lia.
    + intros Hn. pose proof (isNaN_round53 ((2 * h + 1) * 1000) (Z.pos k)) as Hnn.
      rewrite Hn in Hnn. discriminate.
  - split; discriminate.
  - split; [intros [= Hz]; lia | discriminate].
  - split; [intros [= Hz]; lia | discriminate].
Qed.

(** X4: [getReauthenticationLeeway] returns 1200000 when the option is
    absent, [0] or [NaN], and the option times 1000 otherwise: an integer
    for an integer option (exactly, as long as the product is safe),
    [Infinity] for an infinite one, and the rounded product for an option
    that is not an integer.  The result is never [0] nor [NaN].  When it
    is an integer, the evaluator that [authenticate] calls compares what
    remains with it (the clock being past the epoch, and the clock and an
    integer expiry safe integers); when it is not, the evaluator takes it
    for a malformed leeway and finds every fresh credential due for
    renewal. *)
Theorem getReauthenticationLeeway_cases (options : Options) :
  let leeway := getReauthenticationLeeway options in
  (reauthenticationLeeway options = None
   \/ reauthenticationLeeway options = Some NaN
   \/ reauthenticationLeeway options = Some (Int 0) ->
   leeway = Int 1200000)
  /\ (forall seconds,
        reauthenticationLeeway options = Some (Int seconds) ->
        seconds <> 0 -> isSafeInteger (seconds * 1000) ->
        leeway = Int (seconds * 1000))
  /\ (forall negative,
        reauthenticationLeeway options = Some (Inf negative) ->
        leeway = Inf negative)
  /\ (forall h k,
        reauthenticationLeeway options = Some (Frac h k) ->
        leeway = round53 ((2 * h + 1) * 1000) (Z.pos k))
  /\ leeway <> Int 0
  /\ leeway <> NaN
  /\ (forall now expiresAt l,
        leeway = Int l ->
        0 < now -> isSafeInteger now ->
        (forall e, expiresAt = Some (Int e) -> isSafeInteger e) ->
        fst (extractExpirationData now expiresAt (Some leeway)) = true ->
        extractExpirationData now expiresAt (Some leeway)
        = (true, Some (num_lt (num_sub (toNumber expiresAt) (Int now)) (Int l))))
  /\ (forall now expiresAt,
        (forall l, leeway <> Int l) ->
        fst (extractExpirationData now expiresAt (Some leeway)) = true ->
        extractExpirationData now expiresAt (Some leeway) = (true, Some true)).
Proof.
  intros leeway.
  destruct (getReauthenticationLeeway_nonzero options) as (Hzero & Hnan).
  fold leeway in Hzero, Hnan.
  split; [|split; [|split; [|split; [|split; [|split; [|split]]]]]];
    try assumption.
  - unfold leeway, getReauthenticationLeeway. intros [-> | [-> | ->]]; reflexivity.
  - unfold leeway, getReauthenticationLeeway. intros seconds -> Hs _.
    cbn [of_opt truthy toNumber]. destruct (Z.eqb_spec seconds 0); [lia|].
    reflexivity.
  - unfold leeway, getReauthenticationLeeway. intros negative ->. reflexivity.
  - unfold leeway, getReauthenticationLeeway. intros h k ->.
    cbn [of_opt truthy toNumber]. apply num_mul_Frac_Int.
  - intros now expiresAt l Hl _ _ _. rewrite Hl in *. unfold extractExpirationData.
    assert (l <> 0) by congruence.
    cbn [of_opt truthy isInteger toNumber].
    destruct (Z.eqb_spec l 0); [lia|]. cbn [negb andb].
    repeat match goal with
      | |- context [if ?b then _ else _] => destruct b
      end; cbn [fst]; intros; first [discriminate | reflexivity].
  - intros now expiresAt Hl. unfold extractExpirationData.
    destruct leeway as [l | h k | b |]; [destruct (Hl l eq_refl) | ..];
      cbn [of_opt truthy isInteger andb];
      repeat match goal with
        | |- context [if ?b then _ else _] => destruct b
        end; cbn [fst]; intros; first [discriminate | reflexivity].
Qed.

Lemma getReauthenticationLeeway_cases_witness :
  reauthenticationLeeway fractionalLeewayOptions = Some (Frac 576460752303423 61)
  /\ getReauthenticationLeeway fractionalLeewayOptions = Frac 0 1
  /\ fst (extractExpirationData t0 (Some (Int (t0 + 7200000)))
            (Some (getReauthenticationLeeway fractionalLeewayOptions))) = true
  /\ extractExpirationData t0 (Some (Int (t0 + 7200000)))
       (Some (getReauthenticationLeeway fractionalLeewayOptions))
     = (true, Some true).
Proof.
  assert (H1 : reauthenticationLeeway fractionalLeewayOptions
               = Some (Frac 576460752303423 61)) by reflexivity.
  assert (H3 : fst (extractExpirationData t0 (Some (Int (t0 + 7200000)))
                      (Some (getReauthenticationLeeway fractionalLeewayOptions)))
               = true) by (vm_compute; reflexivity).
  assert (H4 : forall l, getReauthenticationLeeway fractionalLeewayOptions <> Int l)
    by (intros l; vm_compute; discriminate).
  pose proof (getReauthenticationLeeway_cases fractionalLeewayOptions)
    as (_ & _ & _ & Hfrac & _ & _ & _ & Hdue).
  split; [exact H1|]. split; [rewrite (Hfrac _ _ H1); vm_compute; reflexivity|].
  split; [exact H3|].
  exact (Hdue t0 (Some (Int (t0 + 7200000))) H4 H3).
Defined.

(** A credential whose expiry is not before the clock is fresh, and due
    for renewal as the leeway says. *)
Lemma extractExpirationData_fresh (now e : Z) (leeway : option number) :
  0 < now -> now <= e ->
  extractExpirationData now (Some (Int e)) leeway
  = (true,
     Some match leeway with
          | Some (Int l) => if l =? 0 then true else e - now <? l
          | _ => true
          end).
Proof.
  intros Hnow He. unfold extractExpirationData. cbn [of_opt truthy toNumber].
  destruct (Z.eqb_spec e 0); [lia|]. cbn [negb num_sub isNaN orb num_lt].
  destruct (Z.ltb_spec (e - now) 0); [lia|].
  destruct leeway as [[l | | |]|]; cbn [of_opt truthy isInteger toNumber andb];
    try reflexivity.
  destruct (l =? 0); reflexivity.
Qed.

(** X5: what is not a response object.  [undefined] and [null] make
    [extractAuthData] raise a TypeError (the destructuring fails); a
    boolean, a number or a string fails the first check with "got
    undefined"; and a payload that is [null] passes the first check
    ([typeof null] is ['object']) and raises a TypeError at
    [idTokenPayload.sub] once the token and the expiry are accepted. *)
Theorem extractAuthData_not_a_response (now : Z) :
  extractAuthData now JUndefined = Throw TypeError
  /\ extractAuthData now JNull = Throw TypeError
  /\ (forall parsed,
        typeof parsed <> TObject -> typeof parsed <> TUndefined ->
        extractAuthData now parsed
        = Throw (Error "expected idTokenPayload to be an object, got undefined"))
  /\ (forall props token seconds,
        get_prop props "idTokenPayload" = JNull ->
        get_prop props "accessToken" = JStr token ->
        get_prop props "expiresIn" = JNum (Int seconds) ->
        0 < seconds ->
        extractAuthData now (JObj props) = Throw TypeError).
Proof.
  split; [reflexivity|]. split; [reflexivity|]. split.
  - intros parsed Hobj Hundef.
    destruct parsed; try reflexivity; simpl in *; congruence.
  - intros props token seconds Hp Ha He Hpos.
    unfold extractAuthData. rewrite destructure_obj, Hp, Ha, He. simpl.
    destruct (Z.eqb_spec seconds 0); [lia|].
    destruct (Z.ltb_spec (-1) seconds); [reflexivity | lia].
Qed.

Lemma extractAuthData_not_a_response_witness :
  typeof (JStr "access_token=t") <> TObject
  /\ typeof (JStr "access_token=t") <> TUndefined
  /\ extractAuthData t0 (JStr "access_token=t")
     = Throw (Error "expected idTokenPayload to be an object, got undefined").
Proof.
  assert (H1 : typeof (JStr "access_token=t") <> TObject) by discriminate.
  assert (H2 : typeof (JStr "access_token=t") <> TUndefined) by discriminate.
  split; [exact H1|]. split; [exact H2|].
  exact (proj1 (proj2 (proj2 (extractAuthData_not_a_response t0))) _ H1 H2).
Defined.

(** X6: the extractor and the evaluator, one after the other, once the
    clock is past the epoch (and a safe integer).  A response whose [expiresIn] is a positive
    integer gives a credential that the evaluator finds fresh at the same
    instant (the expiry being a safe integer), and due for renewal
    exactly when [expiresIn * 1000] is below a leeway that is a non-zero
    integer.  The extractor also accepts an [expiresIn] between [-1] and
    [0]: with [-0.5] the credential expired half a second before it was
    extracted, and the evaluator does not find it fresh. *)
Theorem extract_then_evaluate
  (now : Z) (token : string) (sub : JsVal) (leeway : option number) :
  0 < now ->
  isSafeInteger now ->
  truthy sub = true ->
  (forall expiresIn,
     0 < expiresIn -> isSafeInteger (now + expiresIn * 1000) ->
     exists d,
       extractAuthData now
         (mkResponse (JStr token) (JObj [("sub", sub)]) (JNum (Int expiresIn)))
       = Ok d
       /\ ad_expiresAt d = Int (now + expiresIn * 1000)
       /\ extractExpirationData now (Some (ad_expiresAt d)) leeway
          = (true,
             Some match leeway with
                  | Some (Int l) => if l =? 0 then true else expiresIn * 1000 <? l
                  | _ => true
                  end))
  /\ exists d,
       extractAuthData now
         (mkResponse (JStr token) (JObj [("sub", sub)]) (JNum (Frac (-1) 1)))
       = Ok d
       /\ ad_expiresAt d = Int (now - 500)
       /\ extractExpirationData now (Some (ad_expiresAt d)) leeway = (false, None).
Proof.
  intros Hnow _ Hsub. split.
  - intros expiresIn Hpos _. eexists. split.
    + apply (extractAuthData_accepts now _ [("sub", sub)] token (Int expiresIn));
        try reflexivity; [exact Hsub | |].
      * cbn [truthy]. destruct (Z.eqb_spec expiresIn 0); [lia | reflexivity].
      * apply Z.ltb_lt. lia.
    + cbn [ad_expiresAt num_mul num_add]. split; [reflexivity|].
      rewrite extractExpirationData_fresh by lia.
      replace (now + expiresIn * 1000 - now) with (expiresIn * 1000) by lia.
      reflexivity.
  - eexists. split.
    + apply (extractAuthData_accepts now _ [("sub", sub)] token (Frac (-1) 1));
        try reflexivity. exact Hsub.
    + cbn [ad_expiresAt].
      change (num_mul (Frac (-1) 1) (Int 1000)) with (Int (-500)).
      cbn [num_add]. split; [reflexivity|].
      apply extractExpirationData_expired. lia.
Qed.

Lemma extract_then_evaluate_witness :
  0 < t0
  /\ isSafeInteger t0
  /\ truthy (JStr "u") = true
  /\ 0 < 7200
  /\ isSafeInteger (t0 + 7200 * 1000)
  /\ extractExpirationData t0 (Some (Int (t0 + 7200 * 1000))) (Some (Int 1200000))
     = (true, Some false)
  /\ extractExpirationData t0 (Some (Int (t0 - 500))) (Some (Int 1200000))
     = (false, None).
Proof.
  assert (H1 : 0 < t0) by reflexivity.
  assert (H0 : isSafeInteger t0)
    by (unfold isSafeInteger, MAX_SAFE_INTEGER, t0; lia).
  assert (H2 : truthy (JStr "u") = true) by reflexivity.
  assert (H3 : 0 < 7200) by lia.
  assert (H4 : isSafeInteger (t0 + 7200 * 1000))
    by (unfold isSafeInteger, MAX_SAFE_INTEGER, t0; lia).
  split; [exact H1|]. split; [exact H0|]. split; [exact H2|].
  split; [exact H3|]. split; [exact H4|].
  destruct (extract_then_evaluate t0 "t1" (JStr "u") (Some (Int 1200000)) H1 H0 H2)
    as (Hint & d' & _ & Hexp' & Heval').
  destruct (Hint 7200 H3 H4) as (d & _ & Hexp & Heval).
  rewrite Hexp in Heval. rewrite Hexp' in Heval'.
  split; [exact Heval | exact Heval'].
Defined.

(* ================================================================== *)
(** ** Login, login prompt, logout, accessors *)
(* ================================================================== *)

Section LoginFacts.
Context {S : Type} `{Storage S}.
Variable keys : Keys.
Variable options : Options.

(** X7: when [parseHash] hands no parsed data, [handleLoginSuccess]
    rejects with the provider's error if there is one, and with "parseHash
    neither parsed the hash successfully nor returned an error" if there
    is none; the storage and the timer are not touched. *)
Theorem handleLoginSuccess_no_data (w : World S) (error parsed : JsVal) :
  truthy parsed = false ->
  let '(pid, w') := handleLoginSuccess keys options error parsed w in
  promises w' !! pid
  = Some (Rejected
            (if truthy error then ProviderError error
             else Error "parseHash neither parsed the hash successfully nor returned an error"))
  /\ storage w' = storage w
  /\ timers w' = timers w
  /\ reauthTimeoutId w' = reauthTimeoutId w
  /\ events w' = events w ++ [ParseHash].
Proof.
  intros Hparsed. unfold handleLoginSuccess. run_effects.
  rewrite Hparsed. run_effects.
  destruct (truthy error); run_effects;
    (split; [apply lookup_fresh_promise | repeat split]).
Qed.

End LoginFacts.

Lemma handleLoginSuccess_no_data_witness :
  truthy JUndefined = false
  /\ (let '(pid, w') :=
        handleLoginSuccess defaultKeys hostOptions (JStr "access_denied")
                           JUndefined renewalDueWorld in
      promises w' !! pid = Some (Rejected (ProviderError (JStr "access_denied")))
      /\ storage w' = storage renewalDueWorld).
Proof.
  assert (H1 : truthy JUndefined = false) by reflexivity.
  split; [exact H1|].
  pose proof (handleLoginSuccess_no_data defaultKeys hostOptions renewalDueWorld
                (JStr "access_denied") JUndefined H1) as Hn.
  destruct (handleLoginSuccess defaultKeys hostOptions (JStr "access_denied")
              JUndefined renewalDueWorld) as [pid w'].
  destruct Hn as (Hp & Hs & _). split; [exact Hp | exact Hs].
Defined.

Section LawfulLoginFacts.
Context {S : Type} `{TruthfulStorage S}.
Variable keys : Keys.
Variable options : Options.
Variable logoutRedirectUrl : string.

Lemma keys_distinct_ne :
  KeysDistinct keys ->
  LOGIN_LOCATION keys <> USER_ID keys
  /\ LOGIN_LOCATION keys <> ACCESS_TOKEN keys
  /\ LOGIN_LOCATION keys <> EXPIRES_AT keys
  /\ USER_ID keys <> ACCESS_TOKEN keys
  /\ USER_ID keys <> EXPIRES_AT keys
  /\ ACCESS_TOKEN keys <> EXPIRES_AT keys.
Proof.
  unfold KeysDistinct.
  rewrite !NoDup_cons, !elem_of_cons, !elem_of_nil.
  intros (HL & HU & HA & _). repeat split; intros Heq;
    first [apply HL | apply HU | apply HA]; rewrite Heq; tauto.
Qed.

(** X8: login, then the accessors.  After [handleLoginSuccess] has
    extracted a credential, [getAccessToken()] returns its token (and
    [undefined] when the provider sent the empty string, which the
    extractor accepts), [getUserId()] returns the subject when it is a
    string, and an expiry that is a safe integer other than [0] reads
    back.  The timeout that was pending is cancelled and one renewal
    timeout is added; when the expiry, the leeway and the clock are safe
    integers, and their differences too, its delay is the expiry minus
    the leeway minus the clock. *)
Theorem login_then_accessors
  (w : World S) (error parsed : JsVal) (d : AuthData) :
  KeysDistinct keys ->
  extractAuthData (clock w) parsed = Ok d ->
  let w' := snd (handleLoginSuccess keys options error parsed w) in
  fst (getAccessToken keys w')
  = (if String.eqb (ad_accessToken d) "" then JUndefined
     else JStr (ad_accessToken d))
  /\ (forall u, ad_userId d = JStr u -> fst (getUserId keys w') = JStr u)
  /\ (forall z, ad_expiresAt d = Int z -> z <> 0 -> isSafeInteger z ->
        AuthStorage.retrieveExpiresAt keys (storage w') = Some (Int z))
  /\ exists delay,
       timers w'
       = filter (fun t => Some (fst t) <> reauthTimeoutId w) (timers w)
         ++ [(nextTimer w, delay)]
       /\ forall z l,
            ad_expiresAt d = Int z -> getReauthenticationLeeway options = Int l ->
            isSafeInteger z -> isSafeInteger l -> isSafeInteger (clock w) ->
            isSafeInteger (z - l) -> isSafeInteger (z - l - clock w) ->
            delay = Int (z - l - clock w).
Proof.
  intros Hkeys Hd.
  destruct (keys_distinct_ne Hkeys) as (HLU & HLA & HLE & HUA & HUE & HAE).
  pose proof (extractAuthData_Ok_truthy _ _ _ Hd) as Hparsed.
  pose proof Hd as Hinv. apply extractAuthData_Ok_inv in Hinv
    as (p & a & e & payload & token & seconds & _ & _ & _ & _ & _ & _ & Hsub & Hrec).
  unfold handleLoginSuccess, setReauthenticationTimeout, getAccessToken, getUserId.
  run_effects. rewrite Hparsed. run_effects. rewrite Hd. run_effects.
  unfold AuthStorage.retrieveAccessToken, AuthStorage.retrieveUserId,
    AuthStorage.retrieveExpiresAt, AuthStorage.storeExpiresAt,
    AuthStorage.storeAccessToken, AuthStorage.storeUserId,
    AuthStorage.removeLoginLocation.
  split; [|split; [|split]].
  - rewrite getItem_setItem_ne by congruence. rewrite getItem_setItem_str.
    unfold stringOrUndefined. cbn [truthy].
    destruct (String.eqb (ad_accessToken d) ""); reflexivity.
  - intros u Hu. rewrite !getItem_setItem_ne by congruence.
    rewrite Hu, getItem_setItem_str.
    apply stringOrUndefined_truthy. rewrite <- Hu, Hrec. exact Hsub.
  - intros z Hz Hz0 Hsafe. unfold parseIntOrUndefined.
    rewrite getItem_setItem_truthy
      by (rewrite Hz; cbn [truthy]; destruct (Z.eqb_spec z 0); [lia | reflexivity]).
    unfold parseInt. rewrite getItem_setItem_toString, Hz.
    f_equal. apply (parseInt_number z Hsafe).
  - eexists. split; [reflexivity|].
    intros z l Hz Hl _ _ _ _ _. rewrite Hz, Hl. reflexivity.
Qed.

(** X9: [promptLogin] stores the current location as the login location
    and calls [authorize] once, with the caller's options and the response
    type ['token id_token'], whatever response type the caller gave; it
    creates no promise and leaves the timer alone. *)
Theorem promptLogin_authorize
  (w : World S) (currentLocation : JsVal) (opts : list (string * JsVal)) :
  let w' := snd (promptLogin keys currentLocation opts w) in
  (exists sent,
      events w' = events w ++ [Authorize sent]
      /\ get_prop sent "responseType" = JStr "token id_token"
      /\ forall key, key <> "responseType" -> get_prop sent key = get_prop opts key)
  /\ (forall l, currentLocation = JStr l -> l <> "" ->
        AuthStorage.retrieveLoginLocation keys (storage w') = JStr l)
  /\ promises w' = promises w
  /\ timers w' = timers w.
Proof.
  unfold promptLogin. run_effects. split; [|split; [|split; reflexivity]].
  - eexists. split; [reflexivity|]. split; [reflexivity|].
    intros key Hkey. cbn [get_prop].
    destruct (String.eqb_spec "responseType" key); [congruence | reflexivity].
  - intros l -> Hl. apply retrieve_store_string, Hl.
Qed.

(** X10: [logout] removes the user id, the access token and the expiry,
    keeps the login location, and calls the provider's [logout] with the
    configured return URL.  It does not cancel the renewal timeout: what
    was pending is still pending. *)
Theorem logout_clears (w : World S) :
  KeysDistinct keys ->
  let w' := snd (logout keys logoutRedirectUrl w) in
  fst (getUserId keys w') = JUndefined
  /\ fst (getAccessToken keys w') = JUndefined
  /\ AuthStorage.retrieveExpiresAt keys (storage w') = None
  /\ AuthStorage.retrieveLoginLocation keys (storage w')
     = AuthStorage.retrieveLoginLocation keys (storage w)
  /\ events w' = events w ++ [ClientLogout logoutRedirectUrl]
  /\ timers w' = timers w
  /\ reauthTimeoutId w' = reauthTimeoutId w.
Proof.
  intros Hkeys.
  destruct (keys_distinct_ne Hkeys) as (HLU & HLA & HLE & HUA & HUE & HAE).
  unfold logout, getUserId, getAccessToken. run_effects.
  unfold AuthStorage.retrieveUserId, AuthStorage.retrieveAccessToken,
    AuthStorage.retrieveExpiresAt, AuthStorage.retrieveLoginLocation,
    AuthStorage.removeExpiresAt, AuthStorage.removeAccessToken,
    AuthStorage.removeUserId.
  split; [|split; [|split; [|split; [|repeat split]]]].
  - apply stringOrUndefined_falsy.
    do 2 apply truthy_getItem_removeItem. apply getItem_removeItem_eq.
  - apply stringOrUndefined_falsy.
    apply truthy_getItem_removeItem. apply getItem_removeItem_eq.
  - apply retrieve_remove_number.
  - rewrite !getItem_removeItem_ne by congruence. reflexivity.
Qed.

End LawfulLoginFacts.

Lemma login_then_accessors_witness :
  KeysDistinct defaultKeys
  /\ extractAuthData (clock emptyWorld) validResponse
     = Ok (mkAuthData (JStr "u") "t1" (Int 1700007200000))
  /\ 1700007200000 <> 0
  /\ isSafeInteger 1700007200000
  /\ isSafeInteger 1200000
  /\ isSafeInteger (clock emptyWorld)
  /\ isSafeInteger (1700007200000 - 1200000)
  /\ isSafeInteger (1700007200000 - 1200000 - clock emptyWorld)
  /\ (let w' :=
        snd (handleLoginSuccess defaultKeys hostOptions JUndefined validResponse
                                emptyWorld) in
      fst (getAccessToken defaultKeys w') = JStr "t1"
      /\ fst (getUserId defaultKeys w') = JStr "u"
      /\ AuthStorage.retrieveExpiresAt defaultKeys (storage w')
         = Some (Int 1700007200000)
      /\ timers w' = [(1%nat, Int (1700007200000 - 1200000 - clock emptyWorld))]).
Proof.
  assert (H2 : extractAuthData (clock emptyWorld) validResponse
               = Ok (mkAuthData (JStr "u") "t1" (Int 1700007200000)))
    by reflexivity.
  assert (H3 : 1700007200000 <> 0) by lia.
  assert (H4 : isSafeInteger 1700007200000)
    by (unfold isSafeInteger, MAX_SAFE_INTEGER; lia).
  assert (H5 : isSafeInteger 1200000)
    by (unfold isSafeInteger, MAX_SAFE_INTEGER; lia).
  assert (H6 : isSafeInteger (clock emptyWorld))
    by (change (clock emptyWorld) with 1700000000000;
        unfold isSafeInteger, MAX_SAFE_INTEGER; lia).
  assert (H7 : isSafeInteger (1700007200000 - 1200000))
    by (unfold isSafeInteger, MAX_SAFE_INTEGER; lia).
  assert (H8 : isSafeInteger (1700007200000 - 1200000 - clock emptyWorld))
    by (change (clock emptyWorld) with 1700000000000;
        unfold isSafeInteger, MAX_SAFE_INTEGER; lia).
  split; [exact defaultKeys_distinct|]. split; [exact H2|]. split; [exact H3|].
  split; [exact H4|]. split; [exact H5|]. split; [exact H6|].
  split; [exact H7|]. split; [exact H8|].
  destruct (login_then_accessors defaultKeys hostOptions emptyWorld JUndefined
              validResponse _ defaultKeys_distinct H2)
    as (Ht & Hu & He & delay & Htm & Hdelay).
  split; [exact Ht|]. split; [exact (Hu "u" eq_refl)|].
  split; [exact (He _ eq_refl H3 H4)|].
  rewrite <- (Hdelay 1700007200000 1200000 eq_refl eq_refl H4 H5 H6 H7 H8).
  exact Htm.
Defined.

Lemma logout_clears_witness :
  KeysDistinct defaultKeys
  /\ (let w' := snd (logout defaultKeys "/logout" renewalDueWorld) in
      fst (getAccessToken defaultKeys w') = JUndefined
      /\ events w' = [ClientLogout "/logout"]).
Proof.
  split; [exact defaultKeys_distinct|].
  destruct (logout_clears defaultKeys "/logout" renewalDueWorld
              defaultKeys_distinct) as (_ & Ht & _ & _ & He & _).
  split; [exact Ht | exact He].
Defined.

Lemma delete3_idempotent {V : Type} (a b c : string) (m : gmap string V) :
  delete a (delete b (delete c (delete a (delete b (delete c m)))))
  = delete a (delete b (delete c m)).
Proof.
  apply map_eq. intros k. rewrite !lookup_delete.
  repeat case_decide; reflexivity.
Qed.

(** X11: on the two media of the repository, a second [logout] leaves the
    storage as the first one left it; the provider's [logout] is called
    each time. *)
Theorem logout_idempotent (keys : Keys) (url : string) :
  (forall w : World (gmap string JsVal),
     let w1 := snd (logout keys url w) in
     let w2 := snd (logout keys url w1) in
     storage w2 = storage w1
     /\ events w2 = events w ++ [ClientLogout url; ClientLogout url])
  /\ (forall w : World (gmap string string),
        let w1 := snd (logout keys url w) in
        let w2 := snd (logout keys url w1) in
        storage w2 = storage w1
        /\ events w2 = events w ++ [ClientLogout url; ClientLogout url]).
Proof.
  split; intros w; unfold logout; run_effects;
    (split; [apply delete3_idempotent | rewrite <- app_assoc; reflexivity]).
Qed.

Lemma promptLogin_authorize_witness :
  ("/page" : string) <> ""
  /\ AuthStorage.retrieveLoginLocation defaultKeys
       (storage (snd (promptLogin defaultKeys (JStr "/page")
                                  [("responseType", JStr "code")] emptyWorld)))
     = JStr "/page".
Proof.
  assert (H1 : ("/page" : string) <> "") by discriminate.
  split; [exact H1|].
  exact (proj1 (proj2 (promptLogin_authorize defaultKeys emptyWorld (JStr "/page")
                         [("responseType", JStr "code")])) "/page" eq_refl H1).
Defined.

Lemma randomString_characterized_witness :
  default 16 (Some (-3)) <= 0
  /\ Util.randomString [] (Some (-3)) = Some "".
Proof.
  assert (H1 : default 16 (Some (-3)) <= 0) by (simpl; lia).
  split; [exact H1|].
  exact (proj2 (randomString_characterized [] (Some (-3))) H1).
Defined.

(* ================================================================== *)
(** ** The branches of [authenticate] *)
(* ================================================================== *)

Lemma lookup_alter_rejected (ps : list Promise) (pid p : nat) (r : AuthResult) (e : Exn) :
  alter (settle (Resolved r)) pid ps !! p = Some (Rejected e) ->
  ps !! p = Some (Rejected e).
Proof.
  destruct (decide (p = pid)) as [->|Hne].
  - rewrite list_lookup_alter_eq. destruct (ps !! pid) as [[]|]; simpl; congruence.
  - rewrite list_lookup_alter_ne by done. tauto.
Qed.

Lemma lookup_new_rejected (ps : list Promise) (p : nat) (e : Exn) :
  (ps ++ [Pending]) !! p = Some (Rejected e) -> ps !! p = Some (Rejected e).
Proof.
  intros Hp. apply lookup_app_Some in Hp as [Hp | [_ Hp]]; [exact Hp|].
  destruct (p - length ps)%nat; simpl in Hp; [congruence | discriminate].
Qed.

Section BranchFacts.
Context {S : Type} `{Storage S}.
Variable keys : Keys.
Variable options : Options.

Local Ltac split_evaluation :=
  match goal with
  | |- context [extractExpirationData ?n ?e ?l] =>
      destruct (extractExpirationData n e l) as [[|] [[|]|]]
  end.

(** X12: called with no [currentLocation], [authenticate] never writes to
    the storage and never calls [authorize]; in its turn it does one of
    two things: it calls [checkSession], or it arms the renewal timer
    (after cancelling the one before). *)
Theorem authenticate_without_location (w : World S) (state : string) :
  let w' := snd (authenticate keys options JUndefined state w) in
  storage w' = storage w
  /\ ((events w' = events w ++ [CheckSession [("responseType", JStr responseType)]]
       /\ timers w' = timers w)
      \/ exists delay,
           events w' = events w ++ [ClearTimeout (reauthTimeoutId w);
                                    SetTimeout (nextTimer w) delay]).
Proof.
  unfold authenticate, setReauthenticationTimeout. run_effects.
  destruct (truthy (AuthStorage.retrieveAccessToken keys (storage w)));
    run_effects; split_evaluation; run_effects;
    (split; [reflexivity|]);
    first [left; split; reflexivity
          | right; eexists; rewrite <- app_assoc; reflexivity].
Qed.

(** X13: bootstrap on a credential that is fresh and not yet due.
    Whatever the [currentLocation], [authenticate] resolves with the
    stored user id, token and expiry, writes nothing, calls neither
    [authorize] nor [checkSession], and arms the timer for the instant at
    which the leeway begins: [expiresAt - leeway - now]. *)
Theorem authenticate_fresh_not_due
  (w : World S) (currentLocation : JsVal) (state : string) (e l : Z) :
  truthy (AuthStorage.retrieveAccessToken keys (storage w)) = true ->
  AuthStorage.retrieveExpiresAt keys (storage w) = Some (Int e) ->
  getReauthenticationLeeway options = Int l ->
  0 < clock w -> clock w <= e -> l <= e - clock w ->
  let '(pid, w') := authenticate keys options currentLocation state w in
  promises w' !! pid
  = Some (Resolved (mkAuthResult
                      (AuthStorage.retrieveUserId keys (storage w))
                      (AuthStorage.retrieveAccessToken keys (storage w))
                      (JNum (Int e)) JUndefined))
  /\ storage w' = storage w
  /\ events w' = events w ++ [ClearTimeout (reauthTimeoutId w);
                              SetTimeout (nextTimer w) (Int (e - l - clock w))]
  /\ timers w'
     = filter (fun t => Some (fst t) <> reauthTimeoutId w) (timers w)
       ++ [(nextTimer w, Int (e - l - clock w))].
Proof.
  intros Htoken Hexp Hl Hclock He Hdue.
  destruct (getReauthenticationLeeway_nonzero options) as (Hl0 & _).
  rewrite Hl in Hl0. assert (Hl0' : l <> 0) by congruence.
  unfold authenticate, setReauthenticationTimeout. run_effects.
  rewrite Htoken. run_effects. rewrite Hexp.
  rewrite extractExpirationData_fresh, Hl by lia.
  destruct (Z.eqb_spec l 0); [lia|].
  destruct (Z.ltb_spec (e - clock w) l); [lia|]. run_effects.
  split; [apply lookup_fresh_promise|]. split; [reflexivity|].
  split; [rewrite <- app_assoc; reflexivity | reflexivity].
Qed.

(** X14: bootstrap on a credential that is fresh and due.  Whatever the
    [currentLocation], [authenticate] calls [checkSession] with the
    response type and returns: the promise is still pending, nothing is
    written, and the timer is as it was. *)
Theorem authenticate_renewal_requested
  (w : World S) (currentLocation : JsVal) (state : string) (e l : Z) :
  truthy (AuthStorage.retrieveAccessToken keys (storage w)) = true ->
  AuthStorage.retrieveExpiresAt keys (storage w) = Some (Int e) ->
  getReauthenticationLeeway options = Int l ->
  0 < clock w -> clock w <= e -> e - clock w < l ->
  let '(pid, w') := authenticate keys options currentLocation state w in
  promises w' !! pid = Some Pending
  /\ awaiting w' = pid :: awaiting w
  /\ storage w' = storage w
  /\ events w' = events w ++ [CheckSession [("responseType", JStr "token id_token")]]
  /\ timers w' = timers w.
Proof.
  intros Htoken Hexp Hl Hclock He Hdue.
  destruct (getReauthenticationLeeway_nonzero options) as (Hl0 & _).
  rewrite Hl in Hl0. assert (Hl0' : l <> 0) by congruence.
  unfold authenticate. run_effects.
  rewrite Htoken. run_effects. rewrite Hexp.
  rewrite extractExpirationData_fresh, Hl by lia.
  destruct (Z.eqb_spec l 0); [lia|].
  destruct (Z.ltb_spec (e - clock w) l); [|lia]. run_effects.
  split; [apply list_lookup_middle; reflexivity | repeat split].
Qed.

(** X17: the promise of [authenticate] is never rejected: neither its
    own turn nor the answer of the provider rejects any promise. *)
Theorem authenticate_never_rejects
  (w : World S) (currentLocation : JsVal) (state : string)
  (pid : nat) (error result : JsVal) (p : nat) (e : Exn) :
  (promises (snd (authenticate keys options currentLocation state w)) !! p
   = Some (Rejected e) ->
   promises w !! p = Some (Rejected e))
  /\ (promises (snd (checkSessionReply keys options pid error result w)) !! p
      = Some (Rejected e) ->
      promises w !! p = Some (Rejected e)).
Proof.
  split.
  - unfold authenticate, setReauthenticationTimeout. run_effects.
    destruct (truthy (AuthStorage.retrieveAccessToken keys (storage w)));
      run_effects; destruct (truthy currentLocation); run_effects;
      split_evaluation; run_effects; intros Hp;
      repeat apply lookup_alter_rejected in Hp;
      apply lookup_new_rejected in Hp; exact Hp.
  - unfold checkSessionReply, reauthenticateCallback, reauthenticateHandlers,
      setReauthenticationTimeout, handleReauthenticationFailure,
      handleReauthenticationSuccess.
    run_effects.
    destruct (truthy error); (destruct (extractAuthData (clock w) result) as [d|x]);
      run_effects;
      repeat (match goal with
              | |- context [if ?b then _ else _] => destruct b
              end; run_effects);
      intros Hp; repeat apply lookup_alter_rejected in Hp; exact Hp.
Qed.

End BranchFacts.

Section LawfulBranchFacts.
Context {S : Type} `{TruthfulStorage S}.
Variable keys : Keys.
Variable options : Options.
Variable logoutRedirectUrl : string.

(** X15: a renewal that succeeds.  When [checkSession] reports no error
    and a response that is extracted with a non-empty token and a truthy
    expiry, the new token and expiry are stored (an expiry that is a safe
    integer reads back), the stored user id is not written, the success
    handler (if the host gave one) is called once with user id, token and
    expiry, the promise resolves with token and expiry only, the timeout
    that was pending is cancelled and one renewal timeout is added; when
    the expiry, the leeway and the clock are safe integers, and their
    differences too, its delay is the expiry minus the leeway minus the
    clock. *)
Theorem renewal_commits
  (w : World S) (pid : nat) (error result : JsVal) (d : AuthData) :
  KeysDistinct keys ->
  truthy error = false ->
  extractAuthData (clock w) result = Ok d ->
  ad_accessToken d <> "" ->
  truthy (JNum (ad_expiresAt d)) = true ->
  promises w !! pid = Some Pending ->
  let w' := snd (checkSessionReply keys options pid error result w) in
  AuthStorage.retrieveAccessToken keys (storage w') = JStr (ad_accessToken d)
  /\ (forall z, ad_expiresAt d = Int z -> isSafeInteger z ->
        AuthStorage.retrieveExpiresAt keys (storage w') = Some (Int z))
  /\ getItem (USER_ID keys) (storage w') = getItem (USER_ID keys) (storage w)
  /\ promises w' !! pid
     = Some (Resolved (mkAuthResult JUndefined (JStr (ad_accessToken d))
                                    (JNum (ad_expiresAt d)) JUndefined))
  /\ exists delay,
       timers w'
       = filter (fun t => Some (fst t) <> reauthTimeoutId w) (timers w)
         ++ [(nextTimer w, delay)]
       /\ events w'
          = events w
            ++ [ClearTimeout (reauthTimeoutId w); SetTimeout (nextTimer w) delay]
            ++ (if onReauthenticationSuccess options
                then [OnReauthenticationSuccess
                        (mkAuthResult (ad_userId d) (JStr (ad_accessToken d))
                                      (JNum (ad_expiresAt d)) JUndefined)]
                else [])
       /\ forall z l,
            ad_expiresAt d = Int z -> getReauthenticationLeeway options = Int l ->
            isSafeInteger z -> isSafeInteger l -> isSafeInteger (clock w) ->
            isSafeInteger (z - l) -> isSafeInteger (z - l - clock w) ->
            delay = Int (z - l - clock w).
Proof.
  intros Hkeys Herr Hd Htok Hexp Hp.
  destruct (keys_distinct_ne keys Hkeys) as (HLU & HLA & HLE & HUA & HUE & HAE).
  assert (Hstore :
    AuthStorage.retrieveAccessToken keys
      (AuthStorage.storeExpiresAt keys (ad_expiresAt d)
         (AuthStorage.storeAccessToken keys (JStr (ad_accessToken d)) (storage w)))
    = JStr (ad_accessToken d)
    /\ (forall z, ad_expiresAt d = Int z -> isSafeInteger z ->
          AuthStorage.retrieveExpiresAt keys
            (AuthStorage.storeExpiresAt keys (ad_expiresAt d)
               (AuthStorage.storeAccessToken keys (JStr (ad_accessToken d))
                  (storage w)))
          = Some (Int z))
    /\ getItem (USER_ID keys)
         (AuthStorage.storeExpiresAt keys (ad_expiresAt d)
            (AuthStorage.storeAccessToken keys (JStr (ad_accessToken d)) (storage w)))
       = getItem (USER_ID keys) (storage w)).
  { unfold AuthStorage.retrieveAccessToken, AuthStorage.retrieveExpiresAt,
      AuthStorage.storeExpiresAt, AuthStorage.storeAccessToken.
    split; [|split].
    - rewrite getItem_setItem_ne by congruence.
      apply retrieve_store_string. assumption.
    - intros z Hz Hsafe. unfold parseIntOrUndefined.
      rewrite getItem_setItem_truthy by exact Hexp.
      unfold parseInt. rewrite getItem_setItem_toString, Hz.
      f_equal. apply (parseInt_number z Hsafe).
    - rewrite !getItem_setItem_ne by congruence. reflexivity. }
  destruct Hstore as (HsA & HsE & HsU).
  unfold checkSessionReply, reauthenticateCallback, reauthenticateHandlers,
    setReauthenticationTimeout, handleReauthenticationSuccess.
  run_effects. rewrite Herr. rewrite Hd. run_effects.
  destruct (String.eqb_spec (ad_accessToken d) ""); [congruence|].
  cbn [negb andb]. cbn [truthy] in Hexp. rewrite Hexp. run_effects.
  destruct (onReauthenticationSuccess options); run_effects;
    (split; [exact HsA|]); (split; [exact HsE|]); (split; [exact HsU|]);
    (split; [rewrite list_lookup_alter_eq, Hp; reflexivity|]);
    eexists;
    (split; [reflexivity|]);
    (split; [rewrite <- ?app_assoc; reflexivity|]);
    intros z l Hz Hl _ _ _ _ _; rewrite Hz, Hl; reflexivity.
Qed.

(** X16: bootstrap on an expired credential with a [currentLocation].
    The access token and the expiry are removed, the user id is kept, the
    location is stored as the login location, [authorize] is called once
    with the response type and the state, and the promise resolves with
    [{}]; the executor then still arms the timer, from the stale expiry. *)
Theorem authenticate_expired_with_location
  (w : World S) (location state : string) (e : Z) :
  KeysDistinct keys ->
  location <> "" ->
  truthy (AuthStorage.retrieveAccessToken keys (storage w)) = true ->
  AuthStorage.retrieveExpiresAt keys (storage w) = Some (Int e) ->
  e < clock w ->
  let '(pid, w') := authenticate keys options (JStr location) state w in
  promises w' !! pid = Some (Resolved emptyResult)
  /\ AuthStorage.retrieveAccessToken keys (storage w') = JUndefined
  /\ AuthStorage.retrieveExpiresAt keys (storage w') = None
  /\ AuthStorage.retrieveLoginLocation keys (storage w') = JStr location
  /\ getItem (USER_ID keys) (storage w') = getItem (USER_ID keys) (storage w)
  /\ exists delay,
       events w'
       = events w ++ [Authorize [("responseType", JStr "token id_token");
                                 ("state", JStr state)];
                      ClearTimeout (reauthTimeoutId w);
                      SetTimeout (nextTimer w) delay].
Proof.
  intros Hkeys Hloc Htoken Hexp Hpast.
  destruct (keys_distinct_ne keys Hkeys) as (HLU & HLA & HLE & HUA & HUE & HAE).
  assert (Hl : truthy (JStr location) = true) by (apply truthy_JStr, Hloc).
  unfold authenticate, setReauthenticationTimeout. run_effects.
  rewrite Htoken. run_effects. rewrite Hexp.
  rewrite extractExpirationData_expired by done. run_effects.
  cbn [truthy] in Hl. rewrite Hl. run_effects.
  rewrite alter_fresh_promise, settle_again by discriminate.
  unfold AuthStorage.retrieveAccessToken, AuthStorage.retrieveExpiresAt,
    AuthStorage.retrieveLoginLocation, AuthStorage.removeExpiresAt,
    AuthStorage.removeAccessToken, AuthStorage.storeLoginLocation.
  split; [apply list_lookup_middle; reflexivity|].
  split; [apply stringOrUndefined_falsy, truthy_getItem_removeItem,
            getItem_removeItem_eq|].
  split; [apply retrieve_remove_number|].
  split; [rewrite !getItem_removeItem_ne by congruence;
          apply retrieve_store_string, Hloc|].
  split; [rewrite !getItem_removeItem_ne, getItem_setItem_ne by congruence;
          reflexivity|].
  eexists. rewrite <- !app_assoc. reflexivity.
Qed.

(** X20: bootstrap with no access token and a [currentLocation].
    Whatever else the storage holds, the location is stored as the login
    location, still there when the turn ends, the first call made is
    [authorize] with the response type and the state, and the promise
    resolves with [{}]. *)
Theorem authenticate_no_token_with_location
  (w : World S) (location state : string) :
  KeysDistinct keys ->
  location <> "" ->
  AuthStorage.retrieveAccessToken keys (storage w) = JUndefined ->
  let '(pid, w') := authenticate keys options (JStr location) state w in
  promises w' !! pid = Some (Resolved emptyResult)
  /\ AuthStorage.retrieveLoginLocation keys (storage w') = JStr location
  /\ exists rest,
       events w'
       = events w ++ Authorize [("responseType", JStr "token id_token");
                                ("state", JStr state)] :: rest.
Proof.
  intros Hkeys Hloc Htoken.
  destruct (keys_distinct_ne keys Hkeys) as (HLU & HLA & HLE & HUA & HUE & HAE).
  assert (Hl : truthy (JStr location) = true) by (apply truthy_JStr, Hloc).
  cbn [truthy] in Hl.
  unfold authenticate, setReauthenticationTimeout. run_effects.
  rewrite Htoken. run_effects. rewrite Hl. run_effects.
  match goal with
  | |- context [extractExpirationData ?n ?e ?l] =>
      destruct (extractExpirationData n e l) as [[|] [[|]|]]
  end; run_effects; rewrite ?Hl; run_effects;
    rewrite alter_fresh_promise, ?settle_again by discriminate;
    unfold AuthStorage.retrieveLoginLocation, AuthStorage.removeExpiresAt,
      AuthStorage.removeAccessToken, AuthStorage.storeLoginLocation;
    (split; [apply list_lookup_middle; reflexivity|]);
    (split; [rewrite ?getItem_removeItem_ne by congruence;
             apply retrieve_store_string, Hloc|]);
    eexists; rewrite <- ?app_assoc; reflexivity.
Qed.

(** One firing on a credential that is not fresh: the storage is as it
    was and one timeout is pending again. *)
Lemma fireNext_not_fresh (w : World S) (state : string) (id : nat) (delay : number) :
  timers w = [(id, delay)] ->
  fst (extractExpirationData (clock w)
         (AuthStorage.retrieveExpiresAt keys (storage w))
         (Some (getReauthenticationLeeway options))) = false ->
  exists w' delay',
    fireNext keys options logoutRedirectUrl state w = Some w'
    /\ storage w' = storage w
    /\ clock w' = clock w
    /\ timers w' = [(nextTimer w, delay')]
    /\ armings (events w') = Datatypes.S (armings (events w)).
Proof.
  intros Ht Hstale. unfold fireNext. rewrite Ht. cbn [run].
  rewrite Ht. cbn [map fst].
  rewrite bool_decide_true by (apply list_elem_of_here).
  unfold timeoutCallback, authenticate, setReauthenticationTimeout, fired.
  rewrite Ht.
  rewrite filter_cons_False by (cbn; intros Hne; apply Hne; reflexivity).
  destruct (extractExpirationData (clock w)
              (AuthStorage.retrieveExpiresAt keys (storage w))
              (Some (getReauthenticationLeeway options))) as [fresh due] eqn:Heval.
  cbn [fst] in Hstale. subst fresh.
  run_effects.
  destruct (truthy (AuthStorage.retrieveAccessToken keys (storage w)));
    run_effects; rewrite Heval; run_effects;
    eexists; eexists; (split; [reflexivity|]);
    (split; [reflexivity|]); (split; [reflexivity|]);
    (split; [reflexivity|]); count_armings.
Qed.

(** X19: a credential that is absent or expired is polled without end.
    When a timeout is pending, no [currentLocation] is ever given and the
    stored expiry is not fresh, every firing arms a new timeout and
    changes nothing in the storage: after any number of firings one
    timeout is pending again. *)
Theorem stale_credential_polled_forever
  (states : list string) (w : World S) (id : nat) (delay : number) :
  timers w = [(id, delay)] ->
  fst (extractExpirationData (clock w)
         (AuthStorage.retrieveExpiresAt keys (storage w))
         (Some (getReauthenticationLeeway options))) = false ->
  exists w' id' delay',
    fireTimes keys options logoutRedirectUrl states w = Some w'
    /\ storage w' = storage w
    /\ timers w' = [(id', delay')]
    /\ armings (events w') = (armings (events w) + length states)%nat.
Proof.
  revert w id delay. induction states as [|state rest IH]; intros w id delay Ht Hstale.
  - exists w, id, delay. cbn [fireTimes length]. repeat split; [exact Ht | lia].
  - destruct (fireNext_not_fresh w state id delay Ht Hstale)
      as (w1 & d1 & Hfire & Hst & Hck & Ht1 & Harm).
    destruct (IH w1 (nextTimer w) d1 Ht1) as (w' & id' & d' & Hrest & Hst' & Ht' & Harm').
    { rewrite Hst, Hck. exact Hstale. }
    exists w', id', d'. cbn [fireTimes]. rewrite Hfire.
    split; [exact Hrest|]. split; [congruence|]. split; [exact Ht'|].
    rewrite Harm', Harm. cbn [length]. lia.
Qed.

End LawfulBranchFacts.

(* ================================================================== *)
(** ** The branches, run *)
(* ================================================================== *)

Lemma authenticate_fresh_not_due_witness :
  truthy (AuthStorage.retrieveAccessToken defaultKeys (storage freshWorld)) = true
  /\ AuthStorage.retrieveExpiresAt defaultKeys (storage freshWorld)
     = Some (Int (t0 + 7200000))
  /\ getReauthenticationLeeway hostOptions = Int 1200000
  /\ 0 < clock freshWorld
  /\ clock freshWorld <= t0 + 7200000
  /\ 1200000 <= t0 + 7200000 - clock freshWorld
  /\ (let call := authenticate defaultKeys hostOptions (JStr "/page") "s" freshWorld in
      promises (snd call) !! fst call
      = Some (Resolved (mkAuthResult (JStr "u") (JStr "t")
                                     (JNum (Int (t0 + 7200000))) JUndefined))
      /\ timers (snd call) = [(1%nat, Int 6000000)]).
Proof.
  assert (H1 : truthy (AuthStorage.retrieveAccessToken defaultKeys
                         (storage freshWorld)) = true) by reflexivity.
  assert (H2 : AuthStorage.retrieveExpiresAt defaultKeys (storage freshWorld)
               = Some (Int (t0 + 7200000))) by reflexivity.
  assert (H3 : getReauthenticationLeeway hostOptions = Int 1200000) by reflexivity.
  assert (H4 : 0 < clock freshWorld) by reflexivity.
  assert (H5 : clock freshWorld <= t0 + 7200000) by (vm_compute; discriminate).
  assert (H6 : 1200000 <= t0 + 7200000 - clock freshWorld)
    by (vm_compute; discriminate).
  split; [exact H1|]. split; [exact H2|]. split; [exact H3|]. split; [exact H4|].
  split; [exact H5|]. split; [exact H6|].
  pose proof (authenticate_fresh_not_due defaultKeys hostOptions freshWorld
                (JStr "/page") "s" _ _ H1 H2 H3 H4 H5 H6) as Hf.
  cbv zeta.
  destruct (authenticate defaultKeys hostOptions (JStr "/page") "s" freshWorld)
    as [pid w'].
  destruct Hf as (Hp & _ & _ & Ht). split; [exact Hp | exact Ht].
Defined.

Lemma authenticate_renewal_requested_witness :
  truthy (AuthStorage.retrieveAccessToken defaultKeys (storage renewalDueWorld))
  = true
  /\ AuthStorage.retrieveExpiresAt defaultKeys (storage renewalDueWorld)
     = Some (Int (t0 + 2000))
  /\ getReauthenticationLeeway hostOptions = Int 1200000
  /\ 0 < clock renewalDueWorld
  /\ clock renewalDueWorld <= t0 + 2000
  /\ t0 + 2000 - clock renewalDueWorld < 1200000
  /\ (let call := authenticate defaultKeys hostOptions JUndefined "s" renewalDueWorld in
      promises (snd call) !! fst call = Some Pending
      /\ events (snd call)
         = [CheckSession [("responseType", JStr "token id_token")]]).
Proof.
  assert (H1 : truthy (AuthStorage.retrieveAccessToken defaultKeys
                         (storage renewalDueWorld)) = true) by reflexivity.
  assert (H2 : AuthStorage.retrieveExpiresAt defaultKeys (storage renewalDueWorld)
               = Some (Int (t0 + 2000))) by reflexivity.
  assert (H3 : getReauthenticationLeeway hostOptions = Int 1200000) by reflexivity.
  assert (H4 : 0 < clock renewalDueWorld) by reflexivity.
  assert (H5 : clock renewalDueWorld <= t0 + 2000) by (vm_compute; discriminate).
  assert (H6 : t0 + 2000 - clock renewalDueWorld < 1200000) by reflexivity.
  split; [exact H1|]. split; [exact H2|]. split; [exact H3|]. split; [exact H4|].
  split; [exact H5|]. split; [exact H6|].
  pose proof (authenticate_renewal_requested defaultKeys hostOptions renewalDueWorld
                JUndefined "s" _ _ H1 H2 H3 H4 H5 H6) as Hr.
  cbv zeta.
  destruct (authenticate defaultKeys hostOptions JUndefined "s" renewalDueWorld)
    as [pid w'].
  destruct Hr as (Hp & _ & _ & He & _). split; [exact Hp | exact He].
Defined.

Lemma renewal_commits_witness :
  KeysDistinct defaultKeys
  /\ truthy JUndefined = false
  /\ extractAuthData (clock renewingWorld) validResponse
     = Ok (mkAuthData (JStr "u") "t1" (Int 1700007200000))
  /\ ("t1" : string) <> ""
  /\ truthy (JNum (Int 1700007200000)) = true
  /\ promises renewingWorld !! 0%nat = Some Pending
  /\ isSafeInteger 1700007200000
  /\ isSafeInteger 1200000
  /\ isSafeInteger (clock renewingWorld)
  /\ isSafeInteger (1700007200000 - 1200000)
  /\ isSafeInteger (1700007200000 - 1200000 - clock renewingWorld)
  /\ (let w' :=
        snd (checkSessionReply defaultKeys hostOptions 0 JUndefined validResponse
                               renewingWorld) in
      AuthStorage.retrieveAccessToken defaultKeys (storage w') = JStr "t1"
      /\ AuthStorage.retrieveExpiresAt defaultKeys (storage w')
         = Some (Int 1700007200000)
      /\ timers w'
         = [(1%nat, Int (1700007200000 - 1200000 - clock renewingWorld))]).
Proof.
  assert (H3 : truthy JUndefined = false) by reflexivity.
  assert (H4 : extractAuthData (clock renewingWorld) validResponse
               = Ok (mkAuthData (JStr "u") "t1" (Int 1700007200000)))
    by reflexivity.
  assert (H5 : ("t1" : string) <> "") by discriminate.
  assert (H5' : truthy (JNum (Int 1700007200000)) = true) by reflexivity.
  assert (H6 : promises renewingWorld !! 0%nat = Some Pending) by reflexivity.
  assert (H7 : isSafeInteger 1700007200000)
    by (unfold isSafeInteger, MAX_SAFE_INTEGER; lia).
  assert (H8 : isSafeInteger 1200000)
    by (unfold isSafeInteger, MAX_SAFE_INTEGER; lia).
  assert (H9 : isSafeInteger (clock renewingWorld))
    by (change (clock renewingWorld) with 1700000000000;
        unfold isSafeInteger, MAX_SAFE_INTEGER; lia).
  assert (H10 : isSafeInteger (1700007200000 - 1200000))
    by (unfold isSafeInteger, MAX_SAFE_INTEGER; lia).
  assert (H11 : isSafeInteger (1700007200000 - 1200000 - clock renewingWorld))
    by (change (clock renewingWorld) with 1700000000000;
        unfold isSafeInteger, MAX_SAFE_INTEGER; lia).
  split; [exact defaultKeys_distinct|]. split; [exact H3|].
  split; [exact H4|]. split; [exact H5|]. split; [exact H5'|].
  split; [exact H6|]. split; [exact H7|]. split; [exact H8|].
  split; [exact H9|]. split; [exact H10|]. split; [exact H11|].
  destruct (renewal_commits defaultKeys hostOptions renewingWorld 0 JUndefined
              validResponse _ defaultKeys_distinct H3 H4 H5 H5' H6)
    as (Ha & He & _ & _ & delay & Ht & _ & Hdelay).
  split; [exact Ha|]. split; [exact (He _ eq_refl H7)|].
  rewrite <- (Hdelay 1700007200000 1200000 eq_refl eq_refl H7 H8 H9 H10 H11).
  exact Ht.
Defined.

Lemma authenticate_expired_with_location_witness :
  KeysDistinct defaultKeys
  /\ ("/page" : string) <> ""
  /\ truthy (AuthStorage.retrieveAccessToken defaultKeys (storage expiredWorld))
     = true
  /\ AuthStorage.retrieveExpiresAt defaultKeys (storage expiredWorld)
     = Some (Int (t0 - 10000))
  /\ t0 - 10000 < clock expiredWorld
  /\ (let call :=
        authenticate defaultKeys hostOptions (JStr "/page") "s" expiredWorld in
      promises (snd call) !! fst call = Some (Resolved emptyResult)
      /\ AuthStorage.retrieveAccessToken defaultKeys (storage (snd call))
         = JUndefined).
Proof.
  assert (H2 : ("/page" : string) <> "") by discriminate.
  assert (H3 : truthy (AuthStorage.retrieveAccessToken defaultKeys
                         (storage expiredWorld)) = true) by reflexivity.
  assert (H4 : AuthStorage.retrieveExpiresAt defaultKeys (storage expiredWorld)
               = Some (Int (t0 - 10000))) by reflexivity.
  assert (H5 : t0 - 10000 < clock expiredWorld) by reflexivity.
  split; [exact defaultKeys_distinct|]. split; [exact H2|]. split; [exact H3|].
  split; [exact H4|]. split; [exact H5|].
  pose proof (authenticate_expired_with_location defaultKeys hostOptions
                expiredWorld "/page" "s" _ defaultKeys_distinct H2 H3 H4 H5) as He.
  cbv zeta.
  destruct (authenticate defaultKeys hostOptions (JStr "/page") "s" expiredWorld)
    as [pid w'].
  destruct He as (Hp & Ha & _). split; [exact Hp | exact Ha].
Defined.

Lemma authenticate_no_token_with_location_witness :
  KeysDistinct defaultKeys
  /\ ("/page" : string) <> ""
  /\ AuthStorage.retrieveAccessToken defaultKeys (storage emptyWorld) = JUndefined
  /\ (let call :=
        authenticate defaultKeys hostOptions (JStr "/page") "s" emptyWorld in
      promises (snd call) !! fst call = Some (Resolved emptyResult)
      /\ AuthStorage.retrieveLoginLocation defaultKeys (storage (snd call))
         = JStr "/page").
Proof.
  assert (H2 : ("/page" : string) <> "") by discriminate.
  assert (H3 : AuthStorage.retrieveAccessToken defaultKeys (storage emptyWorld)
               = JUndefined) by reflexivity.
  split; [exact defaultKeys_distinct|]. split; [exact H2|]. split; [exact H3|].
  pose proof (authenticate_no_token_with_location defaultKeys hostOptions
                emptyWorld "/page" "s" defaultKeys_distinct H2 H3) as Hn.
  cbv zeta.
  destruct (authenticate defaultKeys hostOptions (JStr "/page") "s" emptyWorld)
    as [pid w'].
  destruct Hn as (Hp & Hl & _). split; [exact Hp | exact Hl].
Defined.

(** A rejected promise was rejected by the login callback, not by the
    bootstrap that followed. *)
Lemma authenticate_never_rejects_witness :
  promises (snd (authenticate defaultKeys hostOptions JUndefined "s"
                              failedLoginWorld)) !! 0%nat
  = Some (Rejected (Error "parseHash neither parsed the hash successfully nor returned an error"))
  /\ promises failedLoginWorld !! 0%nat
     = Some (Rejected (Error "parseHash neither parsed the hash successfully nor returned an error")).
Proof.
  assert (H1 : promises (snd (authenticate defaultKeys hostOptions JUndefined "s"
                                failedLoginWorld)) !! 0%nat
               = Some (Rejected (Error "parseHash neither parsed the hash successfully nor returned an error")))
    by reflexivity.
  split; [exact H1|].
  exact (proj1 (authenticate_never_rejects defaultKeys hostOptions failedLoginWorld
                  JUndefined "s" 0 JUndefined JUndefined 0 _) H1).
Defined.

Lemma stale_credential_polled_forever_witness :
  timers anonymousWorld = [(1%nat, NaN)]
  /\ fst (extractExpirationData (clock anonymousWorld)
            (AuthStorage.retrieveExpiresAt defaultKeys (storage anonymousWorld))
            (Some (getReauthenticationLeeway hostOptions))) = false
  /\ exists w' id' delay',
       fireTimes defaultKeys hostOptions "/logout" ["a"; "b"; "c"] anonymousWorld
       = Some w'
       /\ storage w' = storage anonymousWorld
       /\ timers w' = [(id', delay')]
       /\ armings (events w') = (armings (events anonymousWorld) + 3)%nat.
Proof.
  assert (H1 : timers anonymousWorld = [(1%nat, NaN)]) by reflexivity.
  assert (H2 : fst (extractExpirationData (clock anonymousWorld)
                      (AuthStorage.retrieveExpiresAt defaultKeys
                         (storage anonymousWorld))
                      (Some (getReauthenticationLeeway hostOptions))) = false)
    by reflexivity.
  split; [exact H1|]. split; [exact H2|].
  exact (stale_credential_polled_forever defaultKeys hostOptions "/logout"
           ["a"; "b"; "c"] anonymousWorld 1 NaN H1 H2).
Defined.

(* ================================================================== *)
(** ** Renewal refused, and time passing *)
(* ================================================================== *)

Section RefusedRenewal.
Context {S : Type} `{LawfulStorage S}.
Variable keys : Keys.
Variable options : Options.

(** X21: a renewal that the provider refuses.  When [checkSession]
    reports an error, the user id, the access token and the expiry are
    removed, the promise resolves with [{}] and the timer is not armed
    again.  The failure handler is called with the provider's error,
    and before that with the error of the extraction when the response
    does not extract either (as when the provider sends none): twice in
    all. *)
Theorem renewal_refused
  (w : World S) (pid : nat) (error result : JsVal) :
  truthy error = true ->
  promises w !! pid = Some Pending ->
  let w' := snd (checkSessionReply keys options pid error result w) in
  AuthStorage.retrieveUserId keys (storage w') = JUndefined
  /\ AuthStorage.retrieveAccessToken keys (storage w') = JUndefined
  /\ AuthStorage.retrieveExpiresAt keys (storage w') = None
  /\ promises w' !! pid = Some (Resolved emptyResult)
  /\ timers w' = timers w
  /\ events w'
     = events w
       ++ (if onReauthenticationFailure options
           then match extractAuthData (clock w) result with
                | Throw x => [OnReauthenticationFailure x]
                | Ok _ => []
                end
                ++ [OnReauthenticationFailure (ProviderError error)]
           else []).
Proof.
  intros Herr Hp.
  destruct (checkSessionReply_provider_error keys options w pid error result Herr Hp)
    as (HU & HA & HE & Hr & Ht).
  split; [exact HU|]. split; [exact HA|]. split; [exact HE|].
  split; [exact Hr|]. split; [exact Ht|].
  unfold checkSessionReply, reauthenticateCallback, reauthenticateHandlers,
    handleReauthenticationFailure.
  run_effects. rewrite Herr.
  destruct (extractAuthData (clock w) result) as [d|x]; run_effects;
    destruct (onReauthenticationFailure options); run_effects;
    rewrite <- ?app_assoc, ?app_nil_r; reflexivity.
Qed.

End RefusedRenewal.

Lemma renewal_refused_witness :
  truthy (JStr "login_required") = true
  /\ promises renewingWorld !! 0%nat = Some Pending
  /\ (let w' :=
        snd (checkSessionReply defaultKeys hostOptions 0 (JStr "login_required")
                               JUndefined renewingWorld) in
      AuthStorage.retrieveAccessToken defaultKeys (storage w') = JUndefined
      /\ promises w' !! 0%nat = Some (Resolved emptyResult)).
Proof.
  assert (H1 : truthy (JStr "login_required") = true) by reflexivity.
  assert (H2 : promises renewingWorld !! 0%nat = Some Pending) by reflexivity.
  split; [exact H1|]. split; [exact H2|].
  destruct (renewal_refused defaultKeys hostOptions renewingWorld 0
              (JStr "login_required") JUndefined H1 H2) as (_ & Ha & _ & Hr & _).
  split; [exact Ha | exact Hr].
Defined.

(** X22: the evaluator as time passes.  A credential that is not fresh
    is not fresh at any later instant, and one that is due for renewal
    and still fresh later is still due then. *)
Theorem evaluation_monotone
  (now later : Z) (expiresAt leeway : option number) :
  now <= later ->
  (fst (extractExpirationData now expiresAt leeway) = false ->
   extractExpirationData later expiresAt leeway = (false, None))
  /\ (extractExpirationData now expiresAt leeway = (true, Some true) ->
      fst (extractExpirationData later expiresAt leeway) = true ->
      extractExpirationData later expiresAt leeway = (true, Some true)).
Proof.
  intros Hlater. unfold extractExpirationData.
  destruct expiresAt as [[e | h k | [] |]|]; cbn [of_opt truthy toNumber negb];
    try (split; [reflexivity | discriminate]).
  - destruct (e =? 0); cbn [negb]; [split; [reflexivity | discriminate]|].
    cbn [num_sub isNaN orb num_lt].
    destruct (Z.ltb_spec (e - now) 0); destruct (Z.ltb_spec (e - later) 0);
      cbn [fst]; try lia; try (split; [reflexivity | discriminate]);
      (split; [discriminate|]).
    destruct leeway as [[l | | |]|]; cbn [of_opt truthy isInteger toNumber andb];
      try (intros; reflexivity).
    destruct (l =? 0); cbn [negb andb]; [intros; reflexivity|].
    cbn [num_lt].
    destruct (Z.ltb_spec (e - now) l); destruct (Z.ltb_spec (e - later) l);
      try lia; intros; congruence.
  - rewrite !isNaN_remaining_Frac. cbn [orb]. rewrite !remaining_Frac_negative.
    pose proof (pow2_pos (Z.pos k) ltac:(lia)).
    destruct (Z.ltb_spec (2 * h + 1) (now * 2 ^ Z.pos k));
      destruct (Z.ltb_spec (2 * h + 1) (later * 2 ^ Z.pos k));
      cbn [fst]; try nia; try (split; [reflexivity | discriminate]);
      (split; [discriminate|]).
    destruct leeway as [[l | | |]|]; cbn [of_opt truthy isInteger toNumber andb];
      try (intros; reflexivity).
    destruct (l =? 0); cbn [negb andb]; [intros; reflexivity|].
    destruct (num_lt (num_sub (Frac h k) (Int now)) (Int l)) eqn:Hn;
      [|discriminate].
    intros _ _. rewrite (remaining_Frac_mono h k now later l Hlater Hn).
    reflexivity.
  - cbn [num_sub isNaN orb num_lt fst]. split; [discriminate|]. intros Hn _. exact Hn.
Qed.

Lemma evaluation_monotone_witness :
  t0 <= t0 + 60000
  /\ fst (extractExpirationData t0 (Some (Int (t0 - 10000))) (Some (Int 1200000)))
     = false
  /\ extractExpirationData (t0 + 60000) (Some (Int (t0 - 10000)))
       (Some (Int 1200000))
     = (false, None).
Proof.
  assert (H1 : t0 <= t0 + 60000) by (vm_compute; discriminate).
  assert (H2 : fst (extractExpirationData t0 (Some (Int (t0 - 10000)))
                      (Some (Int 1200000))) = false) by reflexivity.
  split; [exact H1|]. split; [exact H2|].
  exact (proj1 (evaluation_monotone t0 (t0 + 60000) (Some (Int (t0 - 10000)))
                  (Some (Int 1200000)) H1) H2).
Defined.
